(** * The headless engine's page: hijack-mode selection, ledgers and lifecycle

    A shallow embedding of [v2/pkg/protocols/headless/engine/page.go].

    Conventions of the embedding:
    - a Go struct is a record with the source's field names; a pointer to a
      struct is modelled by the value it points to: the entries of an action
      list and the tab handle of a page are not nil, while the two hijack
      handles of a page, which [Close] tests against nil, are options;
    - a method with a pointer receiver takes the [Page] and gives back the
      [Page] it leaves behind, next to its result;
    - the browser driver (go-rod) and the action pipeline are external: every
      call the code makes to them is appended to a log of calls (the [World]),
      newest first, and what a call answers is read from an oracle (the
      [Driver]);
    - the bodies guarded by [p.mutex] are modelled as the atomic steps the
      lock makes them. *)

From stdpp Require Import base strings list gmap.

Local Open Scope string_scope.
Local Open Scope list_scope.

(** ** Data model *)

(** Go's [error] values, [*url.URL], [time.Duration] and [interface{}]
    payload values are opaque to this file. *)
Definition error : Type := string.
Definition url_URL : Type := string.
Definition Duration : Type := Z.
Definition Value : Type := string.

(** Modelled from the spec: the [ActionType] enumeration is declared outside
    page.go.  The five mutating kinds are the ones page.go names; the others
    stand for the non-mutating kinds the pipeline uses (navigate, click,
    script evaluation, wait, extract, and any further kind). *)
Inductive ActionType : Type :=
| ActionNavigate
| ActionScript
| ActionClick
| ActionWaitLoad
| ActionExtract
| ActionSetMethod
| ActionAddHeader
| ActionSetHeader
| ActionDeleteHeader
| ActionSetBody
| ActionOther (kind : nat).

#[global] Instance ActionType_eq_dec : EqDecision ActionType.
Proof. solve_decision. Defined.

(** [action.ActionType.ActionType]: an action carries a holder of its type. *)
Record ActionTypeHolder : Type := { holder_ActionType : ActionType }.

Record Action : Type := {
  action_ActionType : ActionTypeHolder;
  action_Data : gmap string string
}.

(** [rule.Action] is passed as one variadic argument at line 148, so it is a
    single [ActionType]. *)
Record rule : Type := {
  rule_Action : ActionType;
  rule_Part : string;
  rule_Args : gmap string string
}.

(** Handles of the browser driver. *)
Record rodPage : Type := { target : nat; deadline : option Duration }.
Record rodBrowser : Type := { browserContext : nat }.
Record HijackRouter : Type := { router_page : rodPage }.

Inductive RequestStage : Type := FetchRequestStageRequest | FetchRequestStageResponse.

Record FetchRequestPattern : Type := {
  URLPattern : string;
  RequestStage_ : RequestStage
}.

Record Hijack : Type := {
  hijack_page : rodPage;
  hijack_pattern : option FetchRequestPattern
}.

#[global] Instance rodPage_eq_dec : EqDecision rodPage.
Proof. solve_decision. Defined.
#[global] Instance HijackRouter_eq_dec : EqDecision HijackRouter.
Proof. solve_decision. Defined.
#[global] Instance RequestStage_eq_dec : EqDecision RequestStage.
Proof. solve_decision. Defined.
#[global] Instance FetchRequestPattern_eq_dec : EqDecision FetchRequestPattern.
Proof. solve_decision. Defined.
#[global] Instance Hijack_eq_dec : EqDecision Hijack.
Proof. solve_decision. Defined.

Record Browser : Type := { customAgent : string }.

Record Instance : Type := {
  browser : Browser;
  engine : rodBrowser
}.

(** [*sync.RWMutex]: the field holds a reference, which no method reassigns. *)
Record RWMutex : Type := { mutexRef : nat }.

(** HistoryData contains the page request/response pairs *)
Record HistoryData : Type := {
  RawRequest : string;
  RawResponse : string
}.

(** Page is a single page in an isolated browser instance *)
Record Page : Type := mkPage {
  page : rodPage;
  rules : list rule;
  instance : Instance;
  hijackRouter : option HijackRouter;
  hijackNative : option Hijack;
  mutex : RWMutex;
  History : list HistoryData;
  InteractshURLs : list string;
  payloads : gmap string Value
}.

(** Field assignments [p.f = v]. *)
Definition set_hijackRouter (v : option HijackRouter) (p : Page) : Page :=
  mkPage (page p) (rules p) (instance p) v (hijackNative p) (mutex p)
         (History p) (InteractshURLs p) (payloads p).

Definition set_hijackNative (v : option Hijack) (p : Page) : Page :=
  mkPage (page p) (rules p) (instance p) (hijackRouter p) v (mutex p)
         (History p) (InteractshURLs p) (payloads p).

Definition set_History (v : list HistoryData) (p : Page) : Page :=
  mkPage (page p) (rules p) (instance p) (hijackRouter p) (hijackNative p)
         (mutex p) v (InteractshURLs p) (payloads p).

Definition set_InteractshURLs (v : list string) (p : Page) : Page :=
  mkPage (page p) (rules p) (instance p) (hijackRouter p) (hijackNative p)
         (mutex p) (History p) v (payloads p).

Definition set_rules (v : list rule) (p : Page) : Page :=
  mkPage (page p) v (instance p) (hijackRouter p) (hijackNative p)
         (mutex p) (History p) (InteractshURLs p) (payloads p).

(** ** Classification of action types (lines 146-180) *)

Fixpoint containsAnyModificationActionType (actionTypes : list ActionType) : bool :=
  match actionTypes with
  | [] => false
  | actionType :: rest =>
      match actionType with
      | ActionSetMethod => true
      | ActionAddHeader => true
      | ActionSetHeader => true
      | ActionDeleteHeader => true
      | ActionSetBody => true
      | _ => containsAnyModificationActionType rest
      end
  end.

Fixpoint containsModificationActions (actions : list Action) : bool :=
  match actions with
  | [] => false
  | action :: rest =>
      if containsAnyModificationActionType [holder_ActionType (action_ActionType action)]
      then true
      else containsModificationActions rest
  end.

Fixpoint hasModificationRules_range (rs : list rule) : bool :=
  match rs with
  | [] => false
  | r :: rest =>
      if containsAnyModificationActionType [rule_Action r]
      then true
      else hasModificationRules_range rest
  end.

Definition hasModificationRules (p : Page) : bool :=
  hasModificationRules_range (rules p).

(** ** The ledgers (lines 118-144) *)

(** [strings.Builder]: the text written so far. *)
Definition Builder : Type := string.
Definition Builder_zero : Builder := "".
Definition WriteString (b : Builder) (s : string) : Builder := b +:+ s.
Definition Builder_String (b : Builder) : string := b.

(** DumpHistory returns the full page navigation history *)
Definition DumpHistory (p : Page) : string * Page :=
  let historyDump :=
    fold_left
      (fun historyDump historyData =>
         let historyDump := WriteString historyDump (RawRequest historyData) in
         WriteString historyDump (RawResponse historyData))
      (History p) Builder_zero in
  (Builder_String historyDump, p).

(** addToHistory adds a request/response pair to the page history *)
Definition addToHistory (historyData : list HistoryData) (p : Page) : Page :=
  set_History (History p ++ historyData) p.

Definition addInteractshURL (URLs : list string) (p : Page) : Page :=
  set_InteractshURLs (InteractshURLs p ++ URLs) p.

(** ** The browser driver and the action pipeline, seen from page.go *)

(** Every call page.go makes to the driver, to the native hijack and to the
    action pipeline, with its arguments; [Go...] is a goroutine started with
    the [go] statement. *)
Inductive Call : Type :=
| CallEnginePage (b : rodBrowser)
| CallSetUserAgent (pg : rodPage) (userAgent : string)
| CallHijackRequests (pg : rodPage)
| CallRouterAdd (r : HijackRouter) (pattern resourceType : string)
| GoRouterRun (r : HijackRouter)
| CallHijackStart (h : Hijack)
| GoHijackHandler (h : Hijack)
| CallSetViewport (pg : rodPage) (scale width height : Z)
| CallSetExtraHeaders (pg : rodPage) (dict : list string)
| CallExecuteActions (p : Page) (baseURL : url_URL) (actions : list Action)
| CallRouterStop (r : HijackRouter)
| CallHijackStop (h : Hijack)
| CallPageClose (pg : rodPage)
| CallPageInfo (pg : rodPage).

(** The calls made so far, newest first: [c :: w] is the world [w] after the
    call [c]. *)
Definition World : Type := list Call.

Record TargetInfo : Type := { info_URL : string; info_Title : string }.

(** What a hijack handler writes into the ledgers while the pipeline runs. *)
Inductive LedgerWrite : Type :=
| WriteHistory (historyData : list HistoryData)
| WriteInteractshURL (URLs : list string).

(** A [map[string]string] result; [None] is Go's nil map. *)
Definition ResultMap : Type := option (gmap string string).

(** The answers of the external collaborators.  An answer may depend on
    everything that was called before. *)
Record Driver : Type := {
  answer_Page : World -> rodBrowser -> error + rodPage;
  answer_error : World -> Call -> option error;
  answer_Info : World -> rodPage -> error + TargetInfo;
  answer_ExecuteActions :
    World -> Page -> url_URL -> list Action ->
    list LedgerWrite * (ResultMap * option error)
}.

(** Code that calls the driver threads the log of calls. *)
Definition IO (A : Type) : Type := World -> A * World.

Definition ret {A : Type} (a : A) : IO A := fun w => (a, w).

Definition bind {A B : Type} (m : IO A) (k : A -> IO B) : IO B :=
  fun w => let '(a, w') := m w in k a w'.

Notation "x <- m ;; k" := (bind m (fun x => k))
  (at level 100, m at next level, right associativity).

(** [page.Timeout(timeout)]: the same tab under a deadline. *)
Definition Timeout (pg : rodPage) (timeout : Duration) : rodPage :=
  {| target := target pg; deadline := Some timeout |}.

(** Modelled from the spec: [NewHijack] and [SetPattern] belong to the native
    hijack, declared outside page.go; they build the response-stage handle
    without talking to the browser. *)
Definition NewHijack (pg : rodPage) : Hijack :=
  {| hijack_page := pg; hijack_pattern := None |}.

Definition SetPattern (h : Hijack) (pattern : FetchRequestPattern) : Hijack :=
  {| hijack_page := hijack_page h; hijack_pattern := Some pattern |}.

Definition applyWrite (p : Page) (wr : LedgerWrite) : Page :=
  match wr with
  | WriteHistory historyData => addToHistory historyData p
  | WriteInteractshURL URLs => addInteractshURL URLs p
  end.

Section WithDriver.

Variable d : Driver.

(** A driver call whose only result is an error. *)
Definition invoke (c : Call) : IO (option error) :=
  fun w => (answer_error d w c, c :: w).

(** A call without a result, and the [go] statement. *)
Definition perform (c : Call) : IO unit :=
  fun w => (tt, c :: w).

Definition engine_Page (b : rodBrowser) : IO (error + rodPage) :=
  fun w => (answer_Page d w b, CallEnginePage b :: w).

Definition HijackRequests (pg : rodPage) : IO HijackRouter :=
  fun w => ({| router_page := pg |}, CallHijackRequests pg :: w).

Definition Info (pg : rodPage) : IO (error + TargetInfo) :=
  fun w => (answer_Info d w pg, CallPageInfo pg :: w).

(** Modelled from the spec: [ExecuteActions] and the routing handlers are
    declared outside page.go.  While the pipeline runs, the installed
    handler records exchanges and out-of-band URLs through [addToHistory]
    and [addInteractshURL]; the pipeline answers a result map and an error. *)
Definition ExecuteActions (p : Page) (baseURL : url_URL) (actions : list Action)
  : IO (Page * ResultMap * option error) :=
  fun w =>
    let '(writes, (data, err)) := answer_ExecuteActions d w p baseURL actions in
    ((fold_left applyWrite writes p, data, err),
     CallExecuteActions p baseURL actions :: w).

(** Line 46: the page as [Run] constructs it. *)
Definition newPage (pg : rodPage) (i : Instance) (payloads : gmap string Value) : Page :=
  {| page := pg; rules := []; instance := i;
     hijackRouter := None; hijackNative := None;
     mutex := {| mutexRef := target pg |};
     History := []; InteractshURLs := []; payloads := payloads |}.

(** Lines 48-67: in case the page has request/response modification rules -
    enable global hijacking.  The result is the error of the early return,
    if any, and the page with the handle stored. *)
Definition installHijack (createdPage : Page) (actions : list Action)
  : IO (option error * Page) :=
  let pg := page createdPage in
  if hasModificationRules createdPage || containsModificationActions actions then
    hijackRouter <- HijackRequests pg ;;
    err <- invoke (CallRouterAdd hijackRouter "*" "") ;;
    match err with
    | Some err => ret (Some err, createdPage)
    | None =>
        let createdPage := set_hijackRouter (Some hijackRouter) createdPage in
        _ <- perform (GoRouterRun hijackRouter) ;;
        ret (None, createdPage)
    end
  else
    let hijackRouter := NewHijack pg in
    let hijackRouter :=
      SetPattern hijackRouter
        {| URLPattern := "*"; RequestStage_ := FetchRequestStageResponse |} in
    let createdPage := set_hijackNative (Some hijackRouter) createdPage in
    _ <- perform (CallHijackStart hijackRouter) ;;
    _ <- perform (GoHijackHandler hijackRouter) ;;
    ret (None, createdPage).

(** Run runs a list of actions by creating a new page in the browser.
    The result is Go's triple; [None] is nil. *)
Definition Run (i : Instance) (baseURL : url_URL) (actions : list Action)
    (payloads : gmap string Value) (timeout : Duration)
  : IO (ResultMap * option Page * option error) :=
  r <- engine_Page (engine i) ;;
  match r with
  | inl err => ret (None, None, Some err)
  | inr pg =>
      let pg := Timeout pg timeout in
      userAgentErr <-
        (if decide (customAgent (browser i) <> "")
         then invoke (CallSetUserAgent pg (customAgent (browser i)))
         else ret None) ;;
      match userAgentErr with
      | Some userAgentErr => ret (None, None, Some userAgentErr)
      | None =>
          let createdPage := newPage pg i payloads in
          installed <- installHijack createdPage actions ;;
          let '(err, createdPage) := installed in
          match err with
          | Some err => ret (None, None, Some err)
          | None =>
              err <- invoke (CallSetViewport pg 1 1920 1080) ;;
              match err with
              | Some err => ret (None, None, Some err)
              | None =>
                  err <- invoke (CallSetExtraHeaders pg
                                   ["Accept-Language"; "en, en-GB, en-us;"]) ;;
                  match err with
                  | Some err => ret (None, None, Some err)
                  | None =>
                      executed <- ExecuteActions createdPage baseURL actions ;;
                      let '(createdPage, data, err) := executed in
                      match err with
                      | Some err => ret (None, None, Some err)
                      | None => ret (data, Some createdPage, None)
                      end
                  end
              end
          end
      end
  end.

(** Close closes a browser page *)
Definition Close (p : Page) : IO Page :=
  _ <- match hijackRouter p with
       | Some r => _ <- invoke (CallRouterStop r) ;; ret tt
       | None => ret tt
       end ;;
  _ <- match hijackNative p with
       | Some h => _ <- invoke (CallHijackStop h) ;; ret tt
       | None => ret tt
       end ;;
  _ <- invoke (CallPageClose (page p)) ;;
  ret p.

(** Page returns the current page for the actions *)
Definition Page_Page (p : Page) : rodPage * Page := (page p, p).

(** Browser returns the browser that created the current page *)
Definition Page_Browser (p : Page) : rodBrowser * Page := (engine (instance p), p).

(** URL returns the URL for the current page. *)
Definition URL (p : Page) : IO (string * Page) :=
  r <- Info (page p) ;;
  match r with
  | inl err => ret ("", p)
  | inr info => ret (info_URL info, p)
  end.

End WithDriver.

(** ** The operations on a page, as a step function *)

(** The methods page.go gives a [Page], with their arguments. *)
Inductive PageOp : Type :=
| OpClose
| OpPage
| OpBrowser
| OpURL
| OpDumpHistory
| OpAddToHistory (historyData : list HistoryData)
| OpAddInteractshURL (URLs : list string).

Definition exec (d : Driver) (op : PageOp) (p : Page) : IO Page :=
  match op with
  | OpClose => Close d p
  | OpPage => ret (snd (Page_Page p))
  | OpBrowser => ret (snd (Page_Browser p))
  | OpURL => r <- URL d p ;; ret (snd r)
  | OpDumpHistory => ret (snd (DumpHistory p))
  | OpAddToHistory historyData => ret (addToHistory historyData p)
  | OpAddInteractshURL URLs => ret (addInteractshURL URLs p)
  end.

Fixpoint execAll (d : Driver) (ops : list PageOp) (p : Page) : IO Page :=
  match ops with
  | [] => ret p
  | op :: rest => q <- exec d op p ;; execAll d rest q
  end.

(** ** What the specification says, in its own words *)

(** The concatenation, in append order, of each entry's raw request text
    immediately followed by its raw response text. *)
Fixpoint concatExchanges (h : list HistoryData) : string :=
  match h with
  | [] => ""
  | e :: rest => RawRequest e +:+ RawResponse e +:+ concatExchanges rest
  end.

(** The mutating action types: SetMethod, AddHeader, SetHeader, DeleteHeader,
    SetBody. *)
Definition Mutating (t : ActionType) : Prop :=
  t ∈ [ActionSetMethod; ActionAddHeader; ActionSetHeader; ActionDeleteHeader; ActionSetBody].

Definition actionTypeOf (a : Action) : ActionType :=
  holder_ActionType (action_ActionType a).

Inductive HijackMode : Type := RuleHijack | PassiveHijack.

#[global] Instance HijackMode_eq_dec : EqDecision HijackMode.
Proof. solve_decision. Defined.

(** The mode a page carries: the handle [Run] stored in it. *)
Definition hijackModeOf (p : Page) : option HijackMode :=
  match hijackRouter p, hijackNative p with
  | Some _, _ => Some RuleHijack
  | None, Some _ => Some PassiveHijack
  | None, None => None
  end.

(** The mode a log of calls installs: the latest installation call in it. *)
Fixpoint modeOfCalls (calls : list Call) : option HijackMode :=
  match calls with
  | [] => None
  | CallHijackRequests _ :: _ => Some RuleHijack
  | CallHijackStart _ :: _ => Some PassiveHijack
  | _ :: rest => modeOfCalls rest
  end.

(** The background interception loops. *)
Inductive Loop : Type :=
| RouterLoop (r : HijackRouter)
| NativeLoop (h : Hijack).

#[global] Instance Loop_eq_dec : EqDecision Loop.
Proof. solve_decision. Defined.

(** Modelled from the spec: what the driver's calls do to the loops is not in
    page.go.  A [go] statement starts a loop; [Stop] ends the loop it is
    called on and is a no-op on a loop that is not running (4.1); no other
    call page.go makes ends a loop.  The list bounds the running loops from
    above: a loop may also end by itself (the deadline of its tab, a start
    the browser rejects), which no call of page.go shows; so the list says
    which loops are surely not running, not which ones surely are. *)
Definition afterCall (live : list Loop) (c : Call) : list Loop :=
  match c with
  | GoRouterRun r => RouterLoop r :: live
  | GoHijackHandler h => NativeLoop h :: live
  | CallRouterStop r => filter (λ l, l ≠ RouterLoop r) live
  | CallHijackStop h => filter (λ l, l ≠ NativeLoop h) live
  | _ => live
  end.

Fixpoint liveLoops (w : World) : list Loop :=
  match w with
  | [] => []
  | c :: before => afterCall (liveLoops before) c
  end.

(** The calls that stop a loop or release a tab. *)
Definition isStopOrClose (c : Call) : bool :=
  match c with
  | CallRouterStop _ | CallHijackStop _ | CallPageClose _ => true
  | _ => false
  end.

(** Both ledgers of [q] extend those of [p]. *)
Definition ledgersExtend (p q : Page) : Prop :=
  History p `prefix_of` History q
  ∧ InteractshURLs p `prefix_of` InteractshURLs q.

(** What the spec calls a declared mutation: some rule's trigger or some
    action of the list has a mutating type. *)
Definition declaresMutation (rs : list rule) (actions : list Action) : Prop :=
  Exists (λ r, Mutating (rule_Action r)) rs
  ∨ Exists (λ a, Mutating (actionTypeOf a)) actions.

(** The error a call answers in the world [w], if it answers one. *)
Definition answerOf (d : Driver) (w : World) (c : Call) : option error :=
  match c with
  | CallEnginePage b =>
      match answer_Page d w b with inl err => Some err | inr _ => None end
  | CallExecuteActions p baseURL actions =>
      snd (snd (answer_ExecuteActions d w p baseURL actions))
  | CallPageInfo pg =>
      match answer_Info d w pg with inl err => Some err | inr _ => None end
  | CallHijackRequests _ | CallHijackStart _ | GoRouterRun _ | GoHijackHandler _ => None
  | _ => answer_error d w c
  end.

(** The setup steps of [Run]. *)
Definition isSetupCall (c : Call) : bool :=
  match c with
  | CallEnginePage _ | CallSetUserAgent _ _ | CallRouterAdd _ _ _
  | CallSetViewport _ _ _ _ | CallSetExtraHeaders _ _ => true
  | _ => false
  end.

(** ** Tactics for the paths of [Run] *)

Ltac unfold_io :=
  unfold Run, installHijack, Close, URL, ExecuteActions, HijackRequests, Info,
    engine_Page, invoke, perform, bind, ret in *.

(** Follow every answer of the driver that the goal branches on. *)
Ltac follow_answers :=
  repeat match goal with
    | |- context [match answer_Page ?d ?w ?b with _ => _ end] =>
        destruct (answer_Page d w b) eqn:?; cbn beta iota zeta
    | |- context [match answer_error ?d ?w ?c with _ => _ end] =>
        destruct (answer_error d w c) eqn:?; cbn beta iota zeta
    | |- context [answer_ExecuteActions ?d ?w ?p ?u ?a] =>
        destruct (answer_ExecuteActions d w p u a) as [? [? [?|]]] eqn:?;
        cbn beta iota zeta
    | |- context [if decide ?P then _ else _] =>
        destruct (decide P); cbn beta iota zeta
    | |- context [if ?b || ?c then _ else _] =>
        destruct (b || c) eqn:?; cbn beta iota zeta
    end.

(** Find the position of the call [c] in a log whose entries are known. *)
Ltac locate_call H :=
  lazymatch type of H with
  | _ :: _ = ?rest ++ _ :: _ =>
      destruct rest as [|? rest]; simpl in H;
      [ injection H as ? ?; subst
      | injection H as ? H; subst; locate_call H ]
  | [] = ?rest ++ _ :: _ =>
      destruct rest; discriminate H
  end.

Ltac prefix_before l w :=
  lazymatch l with
  | w => constr:(@nil Call)
  | ?x :: ?l' => let r := prefix_before l' w in constr:(x :: r)
  end.

(** Turn [c_n :: ... :: c_1 :: w = rest ++ c :: calls ++ w] into an equation
    between the calls made since [w]. *)
Ltac cancel_world H :=
  lazymatch type of H with
  | ?l = ?rest ++ ?c :: ?calls ++ ?w =>
      let r := prefix_before l w in
      change (r ++ w = rest ++ (c :: calls) ++ w) in H;
      rewrite (app_assoc rest (c :: calls) w) in H;
      apply app_inv_tail in H
  end.

Ltac cancel_calls H :=
  lazymatch type of H with
  | ?l = ?calls ++ ?w =>
      let r := prefix_before l w in
      change (r ++ w = calls ++ w) in H;
      apply app_inv_tail in H
  end.

(** ** Observations on results and logs *)

(** Go's result triple. *)
Definition resultData (r : ResultMap * option Page * option error) : ResultMap :=
  fst (fst r).
Definition resultPage (r : ResultMap * option Page * option error) : option Page :=
  snd (fst r).
Definition resultErr (r : ResultMap * option Page * option error) : option error :=
  snd r.

(** The steps of [Run] that come after the hijack is installed. *)
Definition isAfterInstall (c : Call) : bool :=
  match c with
  | CallSetViewport _ _ _ _ | CallSetExtraHeaders _ _ | CallExecuteActions _ _ _ => true
  | _ => false
  end.

(** The loop was started by a [go] statement among [calls]. *)
Definition startedIn (l : Loop) (calls : list Call) : Prop :=
  match l with
  | RouterLoop r => GoRouterRun r ∈ calls
  | NativeLoop h => GoHijackHandler h ∈ calls
  end.

(** The calls of one [Close], newest first: the stops of the installed
    handles, then the release of the tab. *)
Definition closeCalls (p : Page) : list Call :=
  CallPageClose (page p)
  :: match hijackNative p with Some h => [CallHijackStop h] | None => [] end
  ++ match hijackRouter p with Some r => [CallRouterStop r] | None => [] end.

(** [Close] called [n] times in a row. *)
Fixpoint closeTimes (d : Driver) (n : nat) (p : Page) : IO Page :=
  match n with
  | 0 => ret p
  | S k => q <- Close d p ;; closeTimes d k q
  end.

(** The loops left by the calls [calls] made in a world whose loops are
    [live]. *)
Definition loopsAfter (calls : list Call) (live : list Loop) : list Loop :=
  fold_right (λ c l, afterCall l c) live calls.

(** ** Concrete inputs *)

Definition tab7 : rodPage := {| target := 7; deadline := None |}.

Definition plainInstance : Instance :=
  {| browser := {| customAgent := "" |}; engine := {| browserContext := 1 |} |}.

Definition agentInstance : Instance :=
  {| browser := {| customAgent := "scanner/1.0" |}; engine := {| browserContext := 1 |} |}.

Definition navigate : Action :=
  {| action_ActionType := {| holder_ActionType := ActionNavigate |}; action_Data := ∅ |}.

Definition setHeader : Action :=
  {| action_ActionType := {| holder_ActionType := ActionSetHeader |}; action_Data := ∅ |}.

Definition exchange1 : HistoryData :=
  {| RawRequest := "GET / HTTP/1.1 "; RawResponse := "HTTP/1.1 200 OK " |}.

(** A driver that answers every call without error; the pipeline records one
    exchange and one out-of-band URL. *)
Definition quietDriver : Driver :=
  {| answer_Page := λ _ _, inr tab7;
     answer_error := λ _ _, None;
     answer_Info := λ _ _, inr {| info_URL := "http://target.test/"; info_Title := "t" |};
     answer_ExecuteActions := λ _ _ _ _,
       ([WriteHistory [exchange1]; WriteInteractshURL ["http://oob.test/x"]],
        (Some ∅, None)) |}.

(** The same driver, with an error answered by the calls [failing] selects;
    the tab creation, the page lookup and the pipeline fail when [failing]
    selects them. *)
Definition failingDriver (failing : Call → bool) (err : error) : Driver :=
  {| answer_Page := λ _ b, if failing (CallEnginePage b) then inl err else inr tab7;
     answer_error := λ _ c, if failing c then Some err else None;
     answer_Info := λ _ pg,
       if failing (CallPageInfo pg) then inl err
       else inr {| info_URL := "http://target.test/"; info_Title := "t" |};
     answer_ExecuteActions := λ _ p baseURL actions,
       ([WriteHistory [exchange1]],
        (Some ∅,
         if failing (CallExecuteActions p baseURL actions) then Some err else None)) |}.

(** What [Run] builds for [plainInstance] and an action list without a
    mutating action, under a timeout of 30: the native handle, the page at the
    start of the pipeline, and the calls made before the pipeline, newest
    first. *)
Definition nativeHandle : Hijack :=
  SetPattern (NewHijack (Timeout tab7 30%Z))
    {| URLPattern := "*"; RequestStage_ := FetchRequestStageResponse |}.

Definition passivePage : Page :=
  set_hijackNative (Some nativeHandle) (newPage (Timeout tab7 30%Z) plainInstance ∅).

(** A page with the request-stage router installed. *)
Definition routerPage : Page :=
  set_hijackRouter (Some {| router_page := tab7 |}) (newPage tab7 plainInstance ∅).

Definition passiveSetup : list Call :=
  [GoHijackHandler nativeHandle; CallHijackStart nativeHandle;
   CallEnginePage {| browserContext := 1 |}].

Definition isViewport (c : Call) : bool :=
  match c with CallSetViewport _ _ _ _ => true | _ => false end.

Definition isPipeline (c : Call) : bool :=
  match c with CallExecuteActions _ _ _ => true | _ => false end.

Definition isUserAgent (c : Call) : bool :=
  match c with CallSetUserAgent _ _ => true | _ => false end.

Definition isPageInfo (c : Call) : bool :=
  match c with CallPageInfo _ => true | _ => false end.

(** ** Further observations on ledgers, logs and pages *)

(** The exchanges a list of handler writes records, in order. *)
Fixpoint historyWritten (writes : list LedgerWrite) : list HistoryData :=
  match writes with
  | [] => []
  | WriteHistory historyData :: rest => historyData ++ historyWritten rest
  | WriteInteractshURL _ :: rest => historyWritten rest
  end.

(** The out-of-band URLs a list of handler writes records, in order. *)
Fixpoint urlsWritten (writes : list LedgerWrite) : list string :=
  match writes with
  | [] => []
  | WriteHistory _ :: rest => urlsWritten rest
  | WriteInteractshURL URLs :: rest => URLs ++ urlsWritten rest
  end.

(** The exchanges a sequence of operations adds, in order. *)
Fixpoint historyAdded (ops : list PageOp) : list HistoryData :=
  match ops with
  | [] => []
  | OpAddToHistory historyData :: rest => historyData ++ historyAdded rest
  | _ :: rest => historyAdded rest
  end.

(** The out-of-band URLs a sequence of operations adds, in order. *)
Fixpoint urlsAdded (ops : list PageOp) : list string :=
  match ops with
  | [] => []
  | OpAddInteractshURL URLs :: rest => URLs ++ urlsAdded rest
  | _ :: rest => urlsAdded rest
  end.

(** The tab a call is made on; the creation of a tab is made on the browser. *)
Definition tabOf (c : Call) : option rodPage :=
  match c with
  | CallEnginePage _ => None
  | CallSetUserAgent pg _ | CallHijackRequests pg | CallSetViewport pg _ _ _
  | CallSetExtraHeaders pg _ | CallPageClose pg | CallPageInfo pg => Some pg
  | CallRouterAdd r _ _ | GoRouterRun r | CallRouterStop r => Some (router_page r)
  | CallHijackStart h | GoHijackHandler h | CallHijackStop h => Some (hijack_page h)
  | CallExecuteActions p _ _ => Some (page p)
  end.

(** The loops of the handles a page holds. *)
Definition loopsOf (p : Page) : list Loop :=
  match hijackRouter p with Some r => [RouterLoop r] | None => [] end
  ++ match hijackNative p with Some h => [NativeLoop h] | None => [] end.

(** The calls one operation on the page [p] makes, newest first. *)
Definition opCalls (p : Page) (op : PageOp) : list Call :=
  match op with
  | OpClose => closeCalls p
  | OpURL => [CallPageInfo (page p)]
  | _ => []
  end.

(** The calls a sequence of operations on the page [p] makes, newest first. *)
Fixpoint opsCalls (p : Page) (ops : list PageOp) : list Call :=
  match ops with
  | [] => []
  | op :: rest => opsCalls p rest ++ opCalls p op
  end.

(** Two adjacent exchanges written as one. *)
Definition mergeExchanges (e1 e2 : HistoryData) : HistoryData :=
  {| RawRequest := RawRequest e1 +:+ RawResponse e1 +:+ RawRequest e2;
     RawResponse := RawResponse e2 |}.

(** Find the position of a call in a log whose entries are known, and use
    what the equation says about it. *)
Ltac locate_eq H :=
  lazymatch type of H with
  | _ :: _ = ?rest ++ _ :: _ =>
      destruct rest as [|? rest]; simpl in H;
      [ simplify_eq
      | injection H as ? H; subst; locate_eq H ]
  | [] = ?rest ++ _ :: _ =>
      destruct rest; discriminate H
  end.

(** ** The installation of the hijack, seen from [Run] *)

(** The native hijack lines 57-62 build on a tab. *)
Definition nativeHijackOf (tab : rodPage) : Hijack :=
  {| hijack_page := tab;
     hijack_pattern :=
       Some {| URLPattern := "*"; RequestStage_ := FetchRequestStageResponse |} |}.

(** [Run] reaches line 46: the tab was created and, with a custom agent, the
    user agent was accepted. *)
Definition reachesInstallation (d : Driver) (i : Instance) (timeout : Duration)
    (w : World) (created : rodPage) : Prop :=
  answer_Page d w (engine i) = inr created
  ∧ (customAgent (browser i) = ""
     ∨ answer_error d (CallEnginePage (engine i) :: w)
         (CallSetUserAgent (Timeout created timeout) (customAgent (browser i)))
       = None).

(** The request-stage installation in a log: the router is asked for and the
    handler added on every URL, no native call is made, and the router's loop
    is started unless the addition, the last call then, answered an error. *)
Definition installsRouter (d : Driver) (w : World) (tab : rodPage)
    (calls : list Call) : Prop :=
  modeOfCalls calls = Some RuleHijack
  ∧ CallHijackRequests tab ∈ calls
  ∧ CallRouterAdd {| router_page := tab |} "*" "" ∈ calls
  ∧ (∀ h, (CallHijackStart h ∉ calls) ∧ (GoHijackHandler h ∉ calls))
  ∧ (GoRouterRun {| router_page := tab |} ∈ calls
     ∨ ∃ before err,
         calls = CallRouterAdd {| router_page := tab |} "*" "" :: before
         ∧ answer_error d (before ++ w)
             (CallRouterAdd {| router_page := tab |} "*" "") = Some err).

(** The response-stage installation in a log: the native hijack is started
    and its handler run in a goroutine, and no router call is made. *)
Definition installsNative (tab : rodPage) (calls : list Call) : Prop :=
  modeOfCalls calls = Some PassiveHijack
  ∧ CallHijackStart (nativeHijackOf tab) ∈ calls
  ∧ GoHijackHandler (nativeHijackOf tab) ∈ calls
  ∧ (∀ x, CallHijackRequests x ∉ calls)
  ∧ (∀ r, GoRouterRun r ∉ calls).

(** The calls of the native installation (lines 63-66). *)
Definition isNativeInstall (c : Call) : bool :=
  match c with
  | CallHijackStart _ | GoHijackHandler _ => true
  | _ => false
  end.

(** Line 65: the error [hijackRouterHandler()] returns inside its goroutine,
    which the code assigns to [_]. *)
Definition nativeHandlerError (d : Driver) (w : World) (h : Hijack) : option error :=
  answer_error d w (GoHijackHandler h).

(** Two drivers that answer alike, the calls of the native installation
    apart. *)
Definition agreeButNative (d d' : Driver) : Prop :=
  (∀ w b, answer_Page d' w b = answer_Page d w b)
  ∧ (∀ w p u a, answer_ExecuteActions d' w p u a = answer_ExecuteActions d w p u a)
  ∧ (∀ w c, isNativeInstall c = false → answer_error d' w c = answer_error d w c).

(** The [Stop] call that ends a loop. *)
Definition stopCallOf (l : Loop) : Call :=
  match l with
  | RouterLoop r => CallRouterStop r
  | NativeLoop h => CallHijackStop h
  end.

(** One step of [follow_answers]. *)
Ltac follow_answer :=
  match goal with
  | |- context [match answer_Page ?d ?w ?b with _ => _ end] =>
      destruct (answer_Page d w b) eqn:?; cbn beta iota zeta
  | |- context [match answer_error ?d ?w ?c with _ => _ end] =>
      destruct (answer_error d w c) eqn:?; cbn beta iota zeta
  | |- context [answer_ExecuteActions ?d ?w ?p ?u ?a] =>
      destruct (answer_ExecuteActions d w p u a) as [? [? [?|]]] eqn:?;
      cbn beta iota zeta
  | |- context [if decide ?P then _ else _] =>
      destruct (decide P); cbn beta iota zeta
  | |- context [if ?b || ?c then _ else _] =>
      destruct (b || c) eqn:?; cbn beta iota zeta
  end.

(** ** Strings *)

Lemma append_cons (x : Ascii.ascii) (a b : string) :
  String x a +:+ b = String x (a +:+ b).
Proof. reflexivity. Qed.

Lemma append_assoc (a b c : string) : (a +:+ b) +:+ c = a +:+ (b +:+ c).
Proof.
  induction a as [|x a IH]; [reflexivity|].
  now rewrite !append_cons, IH.
Qed.

Lemma append_empty_r (a : string) : a +:+ "" = a.
Proof.
  induction a as [|x a IH]; [reflexivity|].
  now rewrite append_cons, IH.
Qed.

(** ** The history dump *)

Lemma dump_loop (h : list HistoryData) (b : Builder) :
  fold_left
    (fun historyDump historyData =>
       let historyDump := WriteString historyDump (RawRequest historyData) in
       WriteString historyDump (RawResponse historyData)) h b
  = b +:+ concatExchanges h.
Proof.
  revert b; induction h as [|e h IH]; intros b; simpl.
  - symmetry; apply append_empty_r.
  - rewrite IH. unfold WriteString. now rewrite !append_assoc.
Qed.

(** C6: for every history, [DumpHistory] returns exactly the concatenation, in
    append order, of each entry's raw request followed by its raw response;
    for an empty history it returns the empty string. *)
Theorem DumpHistory_concatenation (p : Page) :
  fst (DumpHistory p) = concatExchanges (History p)
  ∧ fst (DumpHistory (set_History [] p)) = "".
Proof.
  split.
  - unfold DumpHistory, Builder_String, Builder_zero; simpl.
    now rewrite dump_loop.
  - reflexivity.
Qed.

Example DumpHistory_two_exchanges :
  fst (DumpHistory
         (set_History [ {| RawRequest := "GET / "; RawResponse := "200 " |};
                        {| RawRequest := "GET /a "; RawResponse := "404" |} ]
            (newPage {| target := 1; deadline := None |}
                     {| browser := {| customAgent := "" |};
                        engine := {| browserContext := 0 |} |} ∅)))
  = "GET / 200 GET /a 404".
Proof. reflexivity. Qed.

(** ** The ledgers only grow *)

Lemma ledgersExtend_refl (p : Page) : ledgersExtend p p.
Proof. split; reflexivity. Qed.

Lemma ledgersExtend_trans (p q r : Page) :
  ledgersExtend p q → ledgersExtend q r → ledgersExtend p r.
Proof. intros [H1 H2] [H3 H4]; split; etrans; eassumption. Qed.

Lemma addToHistory_extends (hs : list HistoryData) (p : Page) :
  ledgersExtend p (addToHistory hs p).
Proof. split; simpl; [apply prefix_app_r|]; reflexivity. Qed.

Lemma addInteractshURL_extends (us : list string) (p : Page) :
  ledgersExtend p (addInteractshURL us p).
Proof. split; simpl; [|apply prefix_app_r]; reflexivity. Qed.

Lemma Close_page (d : Driver) (p : Page) (w : World) : fst (Close d p w) = p.
Proof.
  unfold Close, bind, ret, invoke.
  destruct (hijackRouter p), (hijackNative p); reflexivity.
Qed.

Lemma URL_page (d : Driver) (p : Page) (w : World) : snd (fst (URL d p w)) = p.
Proof.
  unfold URL, bind, ret, Info.
  destruct (answer_Info d w (page p)); reflexivity.
Qed.

Lemma exec_extends (d : Driver) (op : PageOp) (p : Page) (w : World) :
  ledgersExtend p (fst (exec d op p w)).
Proof.
  destruct op; simpl.
  - rewrite Close_page. apply ledgersExtend_refl.
  - apply ledgersExtend_refl.
  - apply ledgersExtend_refl.
  - unfold bind, ret.
    pose proof (URL_page d p w) as E.
    destruct (URL d p w) as [[s q] w']; simpl in *; subst q.
    apply ledgersExtend_refl.
  - apply ledgersExtend_refl.
  - apply addToHistory_extends.
  - apply addInteractshURL_extends.
Qed.

Lemma execAll_extends (d : Driver) (ops : list PageOp) :
  ∀ (p : Page) (w : World), ledgersExtend p (fst (execAll d ops p w)).
Proof.
  induction ops as [|op ops IH]; intros p w; simpl.
  - apply ledgersExtend_refl.
  - unfold bind.
    pose proof (exec_extends d op p w) as E.
    destruct (exec d op p w) as [q w']; simpl in E.
    eapply ledgersExtend_trans; [exact E | apply IH].
Qed.

Lemma applyWrites_extends (writes : list LedgerWrite) :
  ∀ p : Page, ledgersExtend p (fold_left applyWrite writes p).
Proof.
  induction writes as [|wr writes IH]; intros p; simpl.
  - apply ledgersExtend_refl.
  - eapply ledgersExtend_trans; [|apply IH].
    destruct wr; [apply addToHistory_extends | apply addInteractshURL_extends].
Qed.

(** C7: both ledgers are append-only.  [addToHistory] extends [History] by
    exactly the given entries, in argument order, and [addInteractshURL] does
    the same for [InteractshURLs]; whatever sequence of operations (or of
    handler writes during the pipeline) runs on a page, the old ledgers are
    prefixes of the new ones, so every recorded entry stays at its index. *)
Theorem ledgers_append_only (d : Driver) (p : Page) :
  (∀ hs, History (addToHistory hs p) = History p ++ hs)
  ∧ (∀ us, InteractshURLs (addInteractshURL us p) = InteractshURLs p ++ us)
  ∧ (∀ ops w, ledgersExtend p (fst (execAll d ops p w)))
  ∧ (∀ writes, ledgersExtend p (fold_left applyWrite writes p))
  ∧ (∀ ops w (k : nat) (e : HistoryData) (u : string),
       let q := fst (execAll d ops p w) in
       (History p !! k = Some e → History q !! k = Some e)
       ∧ (InteractshURLs p !! k = Some u → InteractshURLs q !! k = Some u)).
Proof.
  repeat split.
  - apply execAll_extends.
  - apply execAll_extends.
  - apply applyWrites_extends.
  - apply applyWrites_extends.
  - intros Hk. destruct (execAll_extends d ops p w) as [H _].
    eapply prefix_lookup_Some; eassumption.
  - intros Hk. destruct (execAll_extends d ops p w) as [_ H].
    eapply prefix_lookup_Some; eassumption.
Qed.

Lemma ledgers_append_only_witness :
  History
    (fst (execAll quietDriver
            [OpAddToHistory [exchange1]; OpDumpHistory; OpURL; OpClose]
            (set_History [exchange1] passivePage) [])) !! 0%nat
  = Some exchange1.
Proof.
  apply (proj1 (proj2 (proj2 (proj2 (proj2
           (ledgers_append_only quietDriver (set_History [exchange1] passivePage)))))
           [OpAddToHistory [exchange1]; OpDumpHistory; OpURL; OpClose] []
           0%nat exchange1 "")).
  reflexivity.
Defined.

Example ledgers_after_operations :
  let q := fst (execAll quietDriver
                  [OpAddToHistory [exchange1]; OpAddInteractshURL ["a"; "b"];
                   OpDumpHistory; OpClose; OpAddInteractshURL ["c"]]
                  (set_History [exchange1] passivePage) []) in
  History q = [exchange1; exchange1] ∧ InteractshURLs q = ["a"; "b"; "c"].
Proof. cbv zeta. split; reflexivity. Qed.

(** ** Frames *)

(** C10: [DumpHistory] leaves the page as it found it; [addToHistory] changes
    the [History] field only and [addInteractshURL] the [InteractshURLs]
    field only. *)
Theorem ledger_operations_frame (p : Page) (hs : list HistoryData) (us : list string) :
  snd (DumpHistory p) = p
  ∧ (let q := addToHistory hs p in
     page q = page p ∧ rules q = rules p ∧ instance q = instance p
     ∧ hijackRouter q = hijackRouter p ∧ hijackNative q = hijackNative p
     ∧ mutex q = mutex p ∧ InteractshURLs q = InteractshURLs p
     ∧ payloads q = payloads p)
  ∧ (let q := addInteractshURL us p in
     page q = page p ∧ rules q = rules p ∧ instance q = instance p
     ∧ hijackRouter q = hijackRouter p ∧ hijackNative q = hijackNative p
     ∧ mutex q = mutex p ∧ History q = History p
     ∧ payloads q = payloads p).
Proof.
  split; [reflexivity|].
  split; cbv zeta; unfold addToHistory, addInteractshURL; simpl; tauto.
Qed.

(** ** Which action types mutate *)

Lemma containsAny_single (t : ActionType) :
  containsAnyModificationActionType [t] = true ↔ Mutating t.
Proof.
  unfold Mutating. rewrite !elem_of_cons, elem_of_nil.
  destruct t; simpl; split; intros H; try reflexivity; try discriminate;
    try tauto; repeat (destruct H as [H|H]; try discriminate H); contradiction.
Qed.

Lemma containsAny_Exists (ts : list ActionType) :
  containsAnyModificationActionType ts = true ↔ Exists Mutating ts.
Proof.
  induction ts as [|t ts IH].
  - simpl. rewrite Exists_nil. split; [discriminate | tauto].
  - rewrite Exists_cons, <- IH, <- containsAny_single.
    destruct t; simpl; intuition discriminate.
Qed.

Lemma containsModificationActions_Exists (actions : list Action) :
  containsModificationActions actions = true
  ↔ Exists (λ a, Mutating (actionTypeOf a)) actions.
Proof.
  induction actions as [|a actions IH].
  - simpl. rewrite Exists_nil. split; [discriminate | tauto].
  - rewrite Exists_cons, <- IH, <- containsAny_single.
    cbn [containsModificationActions]. unfold actionTypeOf.
    destruct (containsAnyModificationActionType _); intuition discriminate.
Qed.

Lemma hasModificationRules_Exists (p : Page) :
  hasModificationRules p = true ↔ Exists (λ r, Mutating (rule_Action r)) (rules p).
Proof.
  unfold hasModificationRules.
  induction (rules p) as [|r rs IH].
  - simpl. rewrite Exists_nil. split; [discriminate | tauto].
  - rewrite Exists_cons, <- IH, <- containsAny_single.
    cbn [hasModificationRules_range].
    destruct (containsAnyModificationActionType _); intuition discriminate.
Qed.

Lemma selection_condition (p : Page) (actions : list Action) :
  hasModificationRules p || containsModificationActions actions = true
  ↔ declaresMutation (rules p) actions.
Proof.
  unfold declaresMutation.
  rewrite orb_true_iff, hasModificationRules_Exists, containsModificationActions_Exists.
  reflexivity.
Qed.

(** ** Running a page: the paths of [Run] *)

Lemma Run_log_extends (d : Driver) (i : Instance) (baseURL : url_URL)
    (actions : list Action) (payloads : gmap string Value) (timeout : Duration)
    (w : World) :
  ∃ calls, snd (Run d i baseURL actions payloads timeout w) = calls ++ w
           ∧ (1 ≤ length calls ≤ 8)%nat.
Proof.
  unfold_io. follow_answers; simpl.
  all: match goal with
       | |- ∃ calls, ?l = calls ++ ?w ∧ _ =>
           let r := prefix_before l w in exists r
       end.
  all: split; [reflexivity | simpl; lia].
Qed.

Lemma Run_failure_is_last (d : Driver) (i : Instance) (baseURL : url_URL)
    (actions : list Action) (payloads : gmap string Value) (timeout : Duration)
    (w : World) (rest calls : list Call) (c : Call) (err : error) :
  snd (Run d i baseURL actions payloads timeout w) = rest ++ c :: calls ++ w →
  answerOf d (calls ++ w) c = Some err →
  rest = [] ∧ fst (Run d i baseURL actions payloads timeout w) = (None, None, Some err).
Proof.
  unfold_io. follow_answers; simpl in *; intros H A.
  all: cancel_world H; locate_call H; simpl in A.
  all: repeat match goal with
         | E : answer_Page _ _ _ = _ |- _ => rewrite E in A
         | E : answer_ExecuteActions _ _ _ _ _ = _ |- _ => rewrite E in A
         end; simpl in A.
  all: try discriminate A; try congruence.
  all: split; [reflexivity | congruence].
Qed.

Lemma applyWrites_frame (writes : list LedgerWrite) :
  ∀ p : Page,
    let q := fold_left applyWrite writes p in
    page q = page p ∧ rules q = rules p ∧ instance q = instance p
    ∧ hijackRouter q = hijackRouter p ∧ hijackNative q = hijackNative p
    ∧ mutex q = mutex p ∧ payloads q = payloads p.
Proof.
  induction writes as [|wr writes IH]; intros p; cbv zeta; simpl.
  - tauto.
  - specialize (IH (applyWrite p wr)); cbv zeta in IH.
    destruct wr; simpl in IH; exact IH.
Qed.

Lemma hijackModeOf_applyWrites (writes : list LedgerWrite) (p : Page) :
  hijackModeOf (fold_left applyWrite writes p) = hijackModeOf p.
Proof.
  pose proof (applyWrites_frame writes p) as F; cbv zeta in F.
  destruct F as (_ & _ & _ & Hr & Hn & _).
  unfold hijackModeOf. now rewrite Hr, Hn.
Qed.

(** The page [Run] hands back on success. *)
Lemma Run_returned_page (d : Driver) (i : Instance) (baseURL : url_URL)
    (actions : list Action) (payloads : gmap string Value) (timeout : Duration)
    (w : World) (p : Page) :
  resultPage (fst (Run d i baseURL actions payloads timeout w)) = Some p →
  resultErr (fst (Run d i baseURL actions payloads timeout w)) = None
  ∧ rules p = []
  ∧ hijackModeOf p
    = Some (if containsModificationActions actions then RuleHijack else PassiveHijack).
Proof.
  unfold_io. follow_answers; simpl in *; intros H; try discriminate H.
  all: injection H as <-.
  all: rewrite hijackModeOf_applyWrites.
  all: match goal with
       | |- context [fold_left applyWrite ?l ?q] =>
           pose proof (applyWrites_frame l q) as F; cbv zeta in F;
           destruct F as (_ & -> & _)
       end.
  all: match goal with E : containsModificationActions _ = _ |- _ => rewrite E end.
  all: repeat split.
Qed.

(** The installation calls in the log of [Run] follow the action list alone. *)
Lemma Run_mode_of_calls (d : Driver) (i : Instance) (baseURL : url_URL)
    (actions : list Action) (payloads : gmap string Value) (timeout : Duration)
    (w : World) (calls : list Call) (m : HijackMode) :
  snd (Run d i baseURL actions payloads timeout w) = calls ++ w →
  modeOfCalls calls = Some m →
  m = if containsModificationActions actions then RuleHijack else PassiveHijack.
Proof.
  unfold_io. follow_answers; simpl in *; intros H M.
  all: cancel_calls H; subst calls; simpl in M; try discriminate M.
  all: match goal with E : containsModificationActions _ = _ |- _ => rewrite E end.
  all: congruence.
Qed.

(** ** Mode selection *)

Lemma declaresMutation_no_rules (actions : list Action) :
  declaresMutation [] actions ↔ containsModificationActions actions = true.
Proof.
  unfold declaresMutation.
  rewrite Exists_nil, containsModificationActions_Exists. tauto.
Qed.

(** Lines 48-67 on a page with any rules: the branch taken, the handle stored
    and the calls made. *)
Lemma installHijack_selects (d : Driver) (pg : rodPage) (i : Instance)
    (payloads : gmap string Value) (rs : list rule) (actions : list Action)
    (w : World) :
  let createdPage := set_rules rs (newPage pg i payloads) in
  let outcome := installHijack d createdPage actions w in
  let installed := snd (fst outcome) in
  (declaresMutation rs actions →
     ∃ calls, snd outcome = calls ++ w
       ∧ modeOfCalls calls = Some RuleHijack
       ∧ hijackNative installed = None
       ∧ (fst (fst outcome) = None →
            hijackModeOf installed = Some RuleHijack
            ∧ GoRouterRun {| router_page := pg |} ∈ calls))
  ∧ (¬ declaresMutation rs actions →
     ∃ calls, snd outcome = calls ++ w
       ∧ modeOfCalls calls = Some PassiveHijack
       ∧ fst (fst outcome) = None
       ∧ hijackModeOf installed = Some PassiveHijack
       ∧ hijackNative installed
         = Some {| hijack_page := pg;
                   hijack_pattern :=
                     Some {| URLPattern := "*";
                             RequestStage_ := FetchRequestStageResponse |} |}
       ∧ GoHijackHandler
           {| hijack_page := pg;
              hijack_pattern :=
                Some {| URLPattern := "*";
                        RequestStage_ := FetchRequestStageResponse |} |} ∈ calls)
  ∧ (∀ baseURL timeout p,
       resultPage (fst (Run d i baseURL actions payloads timeout w)) = Some p →
       (declaresMutation (rules p) actions → hijackModeOf p = Some RuleHijack)
       ∧ (¬ declaresMutation (rules p) actions → hijackModeOf p = Some PassiveHijack)).
Proof.
  cbv zeta.
  pose proof (selection_condition (set_rules rs (newPage pg i payloads)) actions) as S.
  simpl rules in S.
  split; [|split].
  - intros D. apply S in D.
    unfold_io. rewrite D. simpl.
    destruct (answer_error d _ _) eqn:E; simpl.
    + exists [CallRouterAdd {| router_page := pg |} "*" ""; CallHijackRequests pg].
      repeat split; discriminate.
    + exists [GoRouterRun {| router_page := pg |};
              CallRouterAdd {| router_page := pg |} "*" ""; CallHijackRequests pg].
      repeat split. apply list_elem_of_here.
  - intros D.
    assert (hasModificationRules (set_rules rs (newPage pg i payloads))
            || containsModificationActions actions = false) as E.
    { apply not_true_is_false. intros E. apply D, S, E. }
    unfold_io. rewrite E. simpl.
    eexists [_; _]. repeat split. apply list_elem_of_here.
  - intros baseURL timeout p H.
    destruct (Run_returned_page d i baseURL actions payloads timeout w p H)
      as (_ & R & M).
    rewrite R, declaresMutation_no_rules, M.
    destruct (containsModificationActions actions); split; congruence.
Qed.

Lemma Run_installs_selected_mode (d : Driver) (i : Instance) (baseURL : url_URL)
    (actions : list Action) (payloadMap : gmap string Value) (timeout : Duration)
    (w : World) (created : rodPage) :
  reachesInstallation d i timeout w created →
  ∃ calls,
    snd (Run d i baseURL actions payloadMap timeout w) = calls ++ w
    ∧ if containsModificationActions actions
      then installsRouter d w (Timeout created timeout) calls
      else installsNative (Timeout created timeout) calls.
Proof.
  intros [HP HU]. unfold installsRouter, installsNative, nativeHijackOf.
  unfold_io. rewrite HP. cbn beta iota zeta.
  destruct (decide (customAgent (browser i) ≠ "")) as [n|n]; cbn beta iota zeta;
    [destruct HU as [HU|HU]; [contradiction|]; rewrite HU; cbn beta iota zeta|].
  all: destruct (containsModificationActions actions) eqn:CM;
    follow_answers; simpl.
  all: try match goal with
         | E : _ || _ = _ |- _ => simpl in E; discriminate E
         end.
  all: match goal with
       | |- ∃ calls, ?l = calls ++ ?w ∧ _ =>
           let r := prefix_before l w in exists r
       end.
  all: split; [reflexivity|]; split; [reflexivity|].
  all: repeat split;
    try (repeat first [apply list_elem_of_here | apply list_elem_of_further]);
    try (intros M; repeat (apply elem_of_cons in M as [M|M]);
         try discriminate M; apply elem_of_nil in M; contradiction).
  all: simpl in *.
  all: try solve [left;
                  repeat first [apply list_elem_of_here | apply list_elem_of_further]].
  all: try (right; eexists _, _; split; [reflexivity | simpl; eassumption]).
  all: intros x M; repeat (apply elem_of_cons in M as [M|M]);
    try discriminate M; apply elem_of_nil in M; contradiction.
Qed.

(** C1: once [Run] has its tab (line 46 reached), the hijack it installs is
    the one the rules of the page and the action list select: with a mutating
    type among them [Run] asks for the request-stage router, adds the handler
    and starts the router's loop, and makes no native call; without one it
    starts the response-stage native hijack and makes no router call.  The
    page [Run] hands back carries the handle of the mode so selected.  The
    selection code itself (lines 48-67) decides in this way for every rule
    set. *)
Theorem hijack_mode_selection (d : Driver) (i : Instance) (baseURL : url_URL)
    (actions : list Action) (payloadMap : gmap string Value) (timeout : Duration)
    (w : World) (created : rodPage) (rs : list rule) :
  let tab := Timeout created timeout in
  (reachesInstallation d i timeout w created →
   ∃ calls,
     snd (Run d i baseURL actions payloadMap timeout w) = calls ++ w
     ∧ (declaresMutation (rules (newPage tab i payloadMap)) actions →
        installsRouter d w tab calls)
     ∧ (¬ declaresMutation (rules (newPage tab i payloadMap)) actions →
        installsNative tab calls))
  ∧ (∀ p,
       resultPage (fst (Run d i baseURL actions payloadMap timeout w)) = Some p →
       (declaresMutation (rules p) actions → hijackModeOf p = Some RuleHijack)
       ∧ (¬ declaresMutation (rules p) actions → hijackModeOf p = Some PassiveHijack))
  ∧ (let outcome := installHijack d (set_rules rs (newPage tab i payloadMap)) actions w in
     (declaresMutation rs actions →
      ∃ calls, snd outcome = calls ++ w
        ∧ modeOfCalls calls = Some RuleHijack
        ∧ (fst (fst outcome) = None →
           hijackModeOf (snd (fst outcome)) = Some RuleHijack
           ∧ GoRouterRun {| router_page := tab |} ∈ calls))
     ∧ (¬ declaresMutation rs actions →
        ∃ calls, snd outcome = calls ++ w
          ∧ modeOfCalls calls = Some PassiveHijack
          ∧ fst (fst outcome) = None
          ∧ hijackModeOf (snd (fst outcome)) = Some PassiveHijack
          ∧ hijackNative (snd (fst outcome)) = Some (nativeHijackOf tab)
          ∧ GoHijackHandler (nativeHijackOf tab) ∈ calls)).
Proof.
  cbv zeta. split; [|split].
  - intros R.
    destruct (Run_installs_selected_mode d i baseURL actions payloadMap timeout w
                created R) as (calls & E & M).
    exists calls. split; [exact E|].
    change (rules (newPage (Timeout created timeout) i payloadMap)) with (@nil rule).
    rewrite declaresMutation_no_rules.
    destruct (containsModificationActions actions); split; intros D;
      congruence.
  - intros p H.
    destruct (Run_returned_page d i baseURL actions payloadMap timeout w p H)
      as (_ & R & M).
    rewrite R, declaresMutation_no_rules, M.
    destruct (containsModificationActions actions); split; congruence.
  - pose proof (installHijack_selects d (Timeout created timeout) i payloadMap rs
                  actions w) as S.
    cbv zeta in S. destruct S as (S1 & S2 & _). split.
    + intros D. destruct (S1 D) as (calls & E & M & _ & G).
      exists calls. auto.
    + intros D. destruct (S2 D) as (calls & E & M & G1 & G2 & G3 & G4).
      exists calls. unfold nativeHijackOf. auto 10.
Qed.

Lemma hijack_mode_selection_witness :
  ∃ calls,
    snd (Run quietDriver plainInstance "http://target.test/" [navigate; setHeader]
           ∅ 30%Z []) = calls ++ []
    ∧ installsRouter quietDriver [] (Timeout tab7 30%Z) calls.
Proof.
  destruct (proj1 (hijack_mode_selection quietDriver plainInstance
                     "http://target.test/" [navigate; setHeader] ∅ 30%Z [] tab7 []))
    as (calls & E & R & _).
  - split; [reflexivity | left; reflexivity].
  - exists calls. split; [exact E|]. apply R.
    right. apply Exists_cons_tl, Exists_cons_hd.
    unfold Mutating, actionTypeOf; simpl.
    apply list_elem_of_further, list_elem_of_further, list_elem_of_here.
Defined.

Example Run_installs_router_for_setHeader :
  snd (Run quietDriver plainInstance "http://target.test/" [navigate; setHeader]
         ∅ 30%Z [])
  = [CallExecuteActions
       (set_hijackRouter (Some {| router_page := Timeout tab7 30%Z |})
          (newPage (Timeout tab7 30%Z) plainInstance ∅))
       "http://target.test/" [navigate; setHeader];
     CallSetExtraHeaders (Timeout tab7 30%Z) ["Accept-Language"; "en, en-GB, en-us;"];
     CallSetViewport (Timeout tab7 30%Z) 1 1920 1080;
     GoRouterRun {| router_page := Timeout tab7 30%Z |};
     CallRouterAdd {| router_page := Timeout tab7 30%Z |} "*" "";
     CallHijackRequests (Timeout tab7 30%Z);
     CallEnginePage {| browserContext := 1 |}].
Proof. reflexivity. Qed.

Example Run_installs_native_for_navigate :
  snd (Run quietDriver plainInstance "http://target.test/" [navigate] ∅ 30%Z [])
  = [CallExecuteActions passivePage "http://target.test/" [navigate];
     CallSetExtraHeaders (Timeout tab7 30%Z) ["Accept-Language"; "en, en-GB, en-us;"];
     CallSetViewport (Timeout tab7 30%Z) 1 1920 1080;
     GoHijackHandler nativeHandle; CallHijackStart nativeHandle;
     CallEnginePage {| browserContext := 1 |}].
Proof. reflexivity. Qed.

Example mode_rule_by_declared_rule :
  modeOfCalls
    (snd (installHijack quietDriver
            (set_rules [ {| rule_Action := ActionSetBody; rule_Part := "request";
                            rule_Args := ∅ |} ]
               (newPage tab7 plainInstance ∅))
            [navigate] []))
  = Some RuleHijack.
Proof. reflexivity. Qed.

Example mode_passive_without_mutation :
  modeOfCalls (snd (installHijack quietDriver (newPage tab7 plainInstance ∅) [navigate] []))
  = Some PassiveHijack.
Proof. reflexivity. Qed.

(** C9: the page [Run] constructs has no rules, so [hasModificationRules] is
    false when the mode is decided and the decision is the one of
    [containsModificationActions] over the action list: without a mutating
    action, [Run] never installs the request-stage router, and the page it
    hands back has no rules. *)
Theorem Run_decides_on_actions_alone (d : Driver) (i : Instance) (baseURL : url_URL)
    (actions : list Action) (payloads : gmap string Value) (timeout : Duration)
    (w : World) (pg : rodPage) :
  let createdPage := newPage pg i payloads in
  rules createdPage = []
  ∧ hasModificationRules createdPage = false
  ∧ hasModificationRules createdPage || containsModificationActions actions
    = containsModificationActions actions
  ∧ (∀ calls m,
       snd (Run d i baseURL actions payloads timeout w) = calls ++ w →
       modeOfCalls calls = Some m →
       m = if containsModificationActions actions then RuleHijack else PassiveHijack)
  ∧ (∀ p,
       resultPage (fst (Run d i baseURL actions payloads timeout w)) = Some p →
       rules p = []
       ∧ hijackModeOf p
         = Some (if containsModificationActions actions
                 then RuleHijack else PassiveHijack)).
Proof.
  cbv zeta. repeat split.
  - intros calls m. apply Run_mode_of_calls.
  - eapply Run_returned_page; eassumption.
  - eapply Run_returned_page; eassumption.
Qed.

Lemma Run_decides_on_actions_alone_witness :
  ∃ p,
    resultPage (fst (Run quietDriver plainInstance "http://target.test/"
                       [navigate] ∅ 30%Z [])) = Some p
    ∧ rules p = []
    ∧ hijackModeOf p = Some PassiveHijack.
Proof.
  eexists. split; [reflexivity|].
  apply (proj2 (proj2 (proj2 (proj2
    (Run_decides_on_actions_alone quietDriver plainInstance "http://target.test/"
       [navigate] ∅ 30%Z [] tab7))))).
  reflexivity.
Defined.

(** ** Failures of [Run] *)

Lemma Run_user_agent_when_configured (d : Driver) (i : Instance) (baseURL : url_URL)
    (actions : list Action) (payloads : gmap string Value) (timeout : Duration)
    (w : World) (calls : list Call) (pg : rodPage) (ua : string) :
  snd (Run d i baseURL actions payloads timeout w) = calls ++ w →
  CallSetUserAgent pg ua ∈ calls →
  customAgent (browser i) ≠ "" ∧ ua = customAgent (browser i).
Proof.
  unfold_io. follow_answers; simpl in *; intros H M.
  all: cancel_calls H; subst calls.
  all: repeat (apply elem_of_cons in M as [M|M]); try discriminate M.
  all: try (apply elem_of_nil in M; contradiction).
  all: injection M as -> ->; split; [assumption | reflexivity].
Qed.

Lemma Run_checked_failure (d : Driver) (i : Instance) (baseURL : url_URL)
    (actions : list Action) (payloads : gmap string Value) (timeout : Duration)
    (w : World) (rest calls : list Call) (c : Call) (err : error) :
  snd (Run d i baseURL actions payloads timeout w) = rest ++ c :: calls ++ w →
  isSetupCall c = true →
  answerOf d (calls ++ w) c = Some err →
  rest = []
  ∧ fst (Run d i baseURL actions payloads timeout w) = (None, None, Some err)
  ∧ (∀ pg ua, CallSetUserAgent pg ua ∈ c :: calls →
       customAgent (browser i) ≠ "" ∧ ua = customAgent (browser i)).
Proof.
  intros H _ A.
  destruct (Run_failure_is_last d i baseURL actions payloads timeout w
              rest calls c err H A) as [-> R].
  split; [reflexivity|]. split; [exact R|].
  intros pg ua M.
  exact (Run_user_agent_when_configured d i baseURL actions payloads timeout w
           (c :: calls) pg ua H M).
Qed.

Lemma Run_ignores_native_answers (d d' : Driver) (i : Instance) (baseURL : url_URL)
    (actions : list Action) (payloadMap : gmap string Value) (timeout : Duration)
    (w : World) :
  agreeButNative d d' →
  Run d' i baseURL actions payloadMap timeout w
  = Run d i baseURL actions payloadMap timeout w.
Proof.
  intros (P & X & E). unfold_io.
  repeat (rewrite ?P, ?X; try (rewrite !E by reflexivity); follow_answer).
  all: reflexivity.
Qed.

Lemma Run_goes_on_after_native_start (d : Driver) (i : Instance)
    (baseURL : url_URL) (actions : list Action) (payloadMap : gmap string Value)
    (timeout : Duration) (w : World) (rest calls : list Call) (h : Hijack) :
  snd (Run d i baseURL actions payloadMap timeout w)
  = rest ++ GoHijackHandler h :: calls ++ w →
  CallSetViewport (hijack_page h) 1 1920 1080 ∈ rest.
Proof.
  unfold_io. follow_answers; simpl in *; intros H.
  all: cancel_world H; locate_eq H.
  all: simpl; repeat first [apply list_elem_of_here | apply list_elem_of_further].
Qed.

(** C5, as the specification states it, fails on the native branch: the
    native hijack handler answers an error inside its goroutine (line 65),
    and [Run] goes on and returns a page and no error. *)
Lemma native_install_failure_is_not_returned :
  let drv := failingDriver isNativeInstall "native hijack rejected" in
  let r := Run drv plainInstance "http://target.test/" [navigate] ∅ 30%Z [] in
  nativeHandlerError drv
    [CallHijackStart nativeHandle; CallEnginePage {| browserContext := 1 |}]
    nativeHandle = Some "native hijack rejected"
  ∧ snd r
    = [CallExecuteActions passivePage "http://target.test/" [navigate];
       CallSetExtraHeaders (Timeout tab7 30%Z) ["Accept-Language"; "en, en-GB, en-us;"];
       CallSetViewport (Timeout tab7 30%Z) 1 1920 1080;
       GoHijackHandler nativeHandle; CallHijackStart nativeHandle;
       CallEnginePage {| browserContext := 1 |}]
  ∧ resultErr (fst r) = None
  ∧ resultPage (fst r) = Some (addToHistory [exchange1] passivePage).
Proof. cbv zeta. repeat split. Qed.

(** C5, amended: when a setup step whose error [Run] checks (tab creation,
    user-agent configuration, addition of the handler to the request-stage
    router, viewport configuration, extra-header configuration) answers an
    error, nothing is called after it and [Run] returns that error with a nil
    result map and a nil page; the user agent is configured only when the
    browser has a custom agent.  The installation of the native hijack is no
    such step: whatever its calls answer, [Run] gives the same results and
    makes the same calls, and after starting the native handler it goes on to
    the viewport configuration. *)
Theorem Run_setup_failure (d : Driver) (i : Instance) (baseURL : url_URL)
    (actions : list Action) (payloadMap : gmap string Value) (timeout : Duration)
    (w : World) :
  (∀ rest calls c err,
     snd (Run d i baseURL actions payloadMap timeout w) = rest ++ c :: calls ++ w →
     isSetupCall c = true →
     answerOf d (calls ++ w) c = Some err →
     rest = []
     ∧ fst (Run d i baseURL actions payloadMap timeout w) = (None, None, Some err)
     ∧ (∀ pg ua, CallSetUserAgent pg ua ∈ c :: calls →
          customAgent (browser i) ≠ "" ∧ ua = customAgent (browser i)))
  ∧ (∀ d', agreeButNative d d' →
       Run d' i baseURL actions payloadMap timeout w
       = Run d i baseURL actions payloadMap timeout w)
  ∧ (∀ rest calls h,
       snd (Run d i baseURL actions payloadMap timeout w)
       = rest ++ GoHijackHandler h :: calls ++ w →
       CallSetViewport (hijack_page h) 1 1920 1080 ∈ rest).
Proof.
  split; [|split].
  - intros rest calls c err. apply Run_checked_failure.
  - intros d'. apply Run_ignores_native_answers.
  - intros rest calls h. apply Run_goes_on_after_native_start.
Qed.

Lemma Run_setup_failure_witness :
  ([] = ([] : list Call)
   ∧ fst (Run (failingDriver isUserAgent "user agent rejected") agentInstance
            "http://target.test/" [navigate] ∅ 30%Z [])
     = (None, None, Some "user agent rejected")
   ∧ (∀ pg ua,
        CallSetUserAgent pg ua
        ∈ [CallSetUserAgent (Timeout tab7 30%Z) "scanner/1.0";
           CallEnginePage {| browserContext := 1 |}] →
        customAgent (browser agentInstance) ≠ ""
        ∧ ua = customAgent (browser agentInstance)))
  ∧ Run (failingDriver isNativeInstall "native hijack rejected") plainInstance
      "http://target.test/" [navigate] ∅ 30%Z []
    = Run (failingDriver (λ _, false) "native hijack rejected") plainInstance
        "http://target.test/" [navigate] ∅ 30%Z [].
Proof.
  split.
  - apply (proj1 (Run_setup_failure (failingDriver isUserAgent "user agent rejected")
                    agentInstance "http://target.test/" [navigate] ∅ 30%Z [])
             [] [CallEnginePage {| browserContext := 1 |}]
             (CallSetUserAgent (Timeout tab7 30%Z) "scanner/1.0")
             "user agent rejected"); reflexivity.
  - apply (proj1 (proj2 (Run_setup_failure
                           (failingDriver (λ _, false) "native hijack rejected")
                           plainInstance "http://target.test/" [navigate] ∅ 30%Z []))
             (failingDriver isNativeInstall "native hijack rejected")).
    repeat split. intros w c N. simpl. now rewrite N.
Defined.

Example Run_tab_creation_fails :
  Run (failingDriver (λ c, match c with CallEnginePage _ => true | _ => false end)
         "no tab") plainInstance "http://target.test/" [navigate] ∅ 30%Z []
  = ((None, None, Some "no tab"), [CallEnginePage {| browserContext := 1 |}]).
Proof. reflexivity. Qed.

Example Run_router_add_fails :
  Run (failingDriver (λ c, match c with CallRouterAdd _ _ _ => true | _ => false end)
         "no route") plainInstance "http://target.test/" [setHeader] ∅ 30%Z []
  = ((None, None, Some "no route"),
     [CallRouterAdd {| router_page := Timeout tab7 30%Z |} "*" "";
      CallHijackRequests (Timeout tab7 30%Z);
      CallEnginePage {| browserContext := 1 |}]).
Proof. reflexivity. Qed.

Example Run_extra_headers_fail :
  Run (failingDriver (λ c, match c with CallSetExtraHeaders _ _ => true | _ => false end)
         "no headers") plainInstance "http://target.test/" [setHeader] ∅ 30%Z []
  = ((None, None, Some "no headers"),
     [CallSetExtraHeaders (Timeout tab7 30%Z) ["Accept-Language"; "en, en-GB, en-us;"];
      CallSetViewport (Timeout tab7 30%Z) 1 1920 1080;
      GoRouterRun {| router_page := Timeout tab7 30%Z |};
      CallRouterAdd {| router_page := Timeout tab7 30%Z |} "*" "";
      CallHijackRequests (Timeout tab7 30%Z);
      CallEnginePage {| browserContext := 1 |}]).
Proof. reflexivity. Qed.

Example Run_succeeds :
  let r := Run quietDriver agentInstance "http://target.test/" [navigate] ∅ 30%Z [] in
  resultData (fst r) = Some ∅
  ∧ resultErr (fst r) = None
  ∧ (History <$> resultPage (fst r)) = Some [exchange1]
  ∧ (InteractshURLs <$> resultPage (fst r)) = Some ["http://oob.test/x"]
  ∧ (λ p, fst (DumpHistory p)) <$> resultPage (fst r)
    = Some "GET / HTTP/1.1 HTTP/1.1 200 OK "
  ∧ length (snd r) = 7.
Proof. repeat split. Qed.

(** C2, as the specification states it, fails: the pipeline fails after the
    session was built and had recorded an exchange, and [Run] returns the
    error with a nil page, so the caller holds no handle to dump the history
    from. *)
Lemma pipeline_failure_returns_no_page :
  let r := Run (failingDriver isPipeline "pipeline failed") plainInstance
             "http://target.test/" [navigate] ∅ 30%Z [] in
  (isPipeline <$> head (snd r)) = Some true
  ∧ resultErr (fst r) = Some "pipeline failed"
  ∧ resultPage (fst r) = None
  ∧ ¬ (∃ p, resultPage (fst r) = Some p).
Proof.
  cbv zeta. repeat split. intros [p H]. discriminate H.
Qed.

(** C2, amended: when the action pipeline answers an error, [Run] propagates
    that error and returns a nil result map and a nil page; the session it
    had built is not handed to the caller. *)
Theorem Run_pipeline_failure (d : Driver) (i : Instance) (baseURL : url_URL)
    (actions : list Action) (payloads : gmap string Value) (timeout : Duration)
    (w : World) (rest calls : list Call) (p : Page) (u : url_URL)
    (a : list Action) (err : error) :
  snd (Run d i baseURL actions payloads timeout w)
  = rest ++ CallExecuteActions p u a :: calls ++ w →
  answerOf d (calls ++ w) (CallExecuteActions p u a) = Some err →
  resultErr (fst (Run d i baseURL actions payloads timeout w)) = Some err
  ∧ resultData (fst (Run d i baseURL actions payloads timeout w)) = None
  ∧ resultPage (fst (Run d i baseURL actions payloads timeout w)) = None
  ∧ rest = [].
Proof.
  intros H A.
  destruct (Run_failure_is_last d i baseURL actions payloads timeout w
              rest calls (CallExecuteActions p u a) err H A) as [-> R].
  rewrite R. repeat split.
Qed.

Lemma Run_pipeline_failure_witness :
  let r := Run (failingDriver isPipeline "pipeline failed") plainInstance
             "http://target.test/" [navigate] ∅ 30%Z [] in
  resultErr (fst r) = Some "pipeline failed"
  ∧ resultData (fst r) = None
  ∧ resultPage (fst r) = None
  ∧ [] = ([] : list Call).
Proof.
  cbv zeta.
  apply (Run_pipeline_failure (failingDriver isPipeline "pipeline failed")
           plainInstance "http://target.test/" [navigate] ∅ 30%Z [] []
           (CallSetExtraHeaders (Timeout tab7 30%Z)
              ["Accept-Language"; "en, en-GB, en-us;"]
            :: CallSetViewport (Timeout tab7 30%Z) 1 1920 1080 :: passiveSetup)
           passivePage "http://target.test/" [navigate] "pipeline failed");
    reflexivity.
Defined.

(** ** Loops left behind by a failed [Run] *)

(** C3, as the specification states it, fails: the viewport configuration
    fails after the go statement for the native hijack loop was executed;
    [Run] returns the error and no page, and between the go statement and the
    return it has called neither [Stop] nor [Close]: it has not stopped the
    mechanism it started. *)
Lemma viewport_failure_stops_nothing :
  let r := Run (failingDriver isViewport "viewport failed") plainInstance
             "http://target.test/" [navigate] ∅ 30%Z [] in
  fst r = (None, None, Some "viewport failed")
  ∧ snd r = [CallSetViewport (Timeout tab7 30%Z) 1 1920 1080;
             GoHijackHandler nativeHandle; CallHijackStart nativeHandle;
             CallEnginePage {| browserContext := 1 |}]
  ∧ existsb isStopOrClose (snd r) = false.
Proof. cbv zeta. repeat split. Qed.

(** C3, amended: when a step after the installation of the hijack (viewport
    configuration, extra-header configuration, the action pipeline) answers
    an error, [Run] returns the error with a nil result map and a nil page
    and has not stopped the mechanism it started: the go statement of the
    interception loop was executed, and no [Stop] or [Close] call was made. *)
Theorem Run_failure_stops_nothing (d : Driver) (i : Instance)
    (baseURL : url_URL) (actions : list Action) (payloads : gmap string Value)
    (timeout : Duration) (w : World) (calls : list Call) (c : Call) (err : error) :
  snd (Run d i baseURL actions payloads timeout w) = c :: calls ++ w →
  isAfterInstall c = true →
  answerOf d (calls ++ w) c = Some err →
  fst (Run d i baseURL actions payloads timeout w) = (None, None, Some err)
  ∧ Forall (λ c', isStopOrClose c' = false) (c :: calls)
  ∧ ∃ l, startedIn l calls.
Proof.
  intros H I A.
  split.
  { apply (Run_failure_is_last d i baseURL actions payloads timeout w [] calls c err);
      assumption. }
  revert H I A.
  unfold_io. follow_answers; simpl in *; intros H I A.
  all: injection H as <- H; cancel_calls H; subst calls; try discriminate I.
  all: simpl in A;
    repeat match goal with
      | E : answer_ExecuteActions _ _ _ _ _ = _ |- _ => rewrite E in A
      end; simpl in A; try discriminate A.
  all: split; [repeat constructor|].
  all: first
         [ eexists (RouterLoop _); simpl;
           solve [repeat first [apply list_elem_of_here | apply list_elem_of_further]]
         | eexists (NativeLoop _); simpl;
           solve [repeat first [apply list_elem_of_here | apply list_elem_of_further]] ].
Qed.

Lemma Run_failure_stops_nothing_witness :
  fst (Run (failingDriver isViewport "viewport failed") plainInstance
         "http://target.test/" [navigate] ∅ 30%Z [])
  = (None, None, Some "viewport failed")
  ∧ Forall (λ c', isStopOrClose c' = false)
      (CallSetViewport (Timeout tab7 30%Z) 1 1920 1080 :: passiveSetup)
  ∧ ∃ l, startedIn l passiveSetup.
Proof.
  apply (Run_failure_stops_nothing
           (failingDriver isViewport "viewport failed") plainInstance
           "http://target.test/" [navigate] ∅ 30%Z [] passiveSetup
           (CallSetViewport (Timeout tab7 30%Z) 1 1920 1080) "viewport failed");
    reflexivity.
Defined.

(** ** Closing a page *)

Lemma liveLoops_app (calls : list Call) (w : World) :
  liveLoops (calls ++ w) = loopsAfter calls (liveLoops w).
Proof.
  induction calls as [|c calls IH]; simpl; [reflexivity | now rewrite IH].
Qed.

Lemma filter_fixed {A : Type} (P : A → Prop) `{∀ x, Decision (P x)} (l : list A) :
  Forall P l → filter P l = l.
Proof.
  induction 1 as [|x l Hx _ IH]; [reflexivity|].
  rewrite filter_cons_True by assumption. now rewrite IH.
Qed.

Lemma Forall_filter_own {A : Type} (P : A → Prop) `{∀ x, Decision (P x)} (l : list A) :
  Forall P (filter P l).
Proof. apply Forall_forall. intros x Hx. now apply list_elem_of_filter in Hx. Qed.

Lemma Forall_filter_keeps {A : Type} (P Q : A → Prop) `{∀ x, Decision (Q x)}
    (l : list A) :
  Forall P l → Forall P (filter Q l).
Proof.
  rewrite !Forall_forall. intros F x Hx.
  apply list_elem_of_filter in Hx. apply F, Hx.
Qed.

Lemma Close_calls (d : Driver) (p : Page) (w : World) :
  Close d p w = (p, closeCalls p ++ w).
Proof.
  unfold Close, closeCalls, bind, ret, invoke.
  destruct (hijackRouter p), (hijackNative p); reflexivity.
Qed.

Lemma closeCalls_idempotent (p : Page) (live : list Loop) :
  loopsAfter (closeCalls p) (loopsAfter (closeCalls p) live)
  = loopsAfter (closeCalls p) live.
Proof.
  unfold closeCalls, loopsAfter.
  destruct (hijackRouter p) as [r|], (hijackNative p) as [h|]; simpl;
    try reflexivity.
  - rewrite (filter_fixed (λ l, l ≠ RouterLoop r)).
    + apply filter_fixed, Forall_filter_own.
    + apply Forall_filter_keeps, Forall_filter_own.
  - apply filter_fixed, Forall_filter_own.
  - apply filter_fixed, Forall_filter_own.
Qed.

Lemma closeTimes_spec (d : Driver) (n : nat) :
  ∀ (p : Page) (w : World),
    fst (closeTimes d (S n) p w) = p
    ∧ liveLoops (snd (closeTimes d (S n) p w))
      = loopsAfter (closeCalls p) (liveLoops w).
Proof.
  induction n as [|n IH]; intros p w.
  - simpl. unfold bind, ret. rewrite Close_calls. simpl.
    split; [reflexivity | apply (liveLoops_app (closeCalls p) w)].
  - change (closeTimes d (S (S n)) p w)
      with (let '(q, w') := Close d p w in closeTimes d (S n) q w').
    rewrite Close_calls.
    destruct (IH p (closeCalls p ++ w)) as [-> ->].
    split; [reflexivity|].
    rewrite liveLoops_app. apply closeCalls_idempotent.
Qed.

(** C4: [Close] never fails and does the same whatever the driver answers:
    it stops the installed router and the installed native loop, then
    releases the tab, and leaves the page as it was; called again, any
    number of times, it makes the same calls and the loops stay stopped;
    with no hijack installed it only releases the tab. *)
Theorem Close_idempotent_total (d d' : Driver) (p : Page) (w : World) (n : nat) :
  Close d p w = (p, closeCalls p ++ w)
  ∧ Close d' p w = Close d p w
  ∧ (∃ stops,
       closeCalls p = CallPageClose (page p) :: stops
       ∧ Forall (λ c, ∃ r h, c = CallRouterStop r ∨ c = CallHijackStop h) stops
       ∧ (∀ r, hijackRouter p = Some r → CallRouterStop r ∈ stops)
       ∧ (∀ h, hijackNative p = Some h → CallHijackStop h ∈ stops))
  ∧ (∀ r, hijackRouter p = Some r → RouterLoop r ∉ liveLoops (snd (Close d p w)))
  ∧ (∀ h, hijackNative p = Some h → NativeLoop h ∉ liveLoops (snd (Close d p w)))
  ∧ fst (closeTimes d (S n) p w) = p
  ∧ liveLoops (snd (closeTimes d (S n) p w)) = liveLoops (snd (Close d p w))
  ∧ Close d (set_hijackRouter None (set_hijackNative None p)) w
    = (set_hijackRouter None (set_hijackNative None p), CallPageClose (page p) :: w).
Proof.
  rewrite !Close_calls.
  split; [reflexivity|]. split; [reflexivity|].
  split.
  { unfold closeCalls. eexists; split; [reflexivity|].
    destruct (hijackRouter p) as [r0|], (hijackNative p) as [h0|]; simpl.
    - split; [|split].
      + repeat constructor; exists r0, h0; tauto.
      + intros r [= <-]. apply list_elem_of_further, list_elem_of_here.
      + intros h [= <-]. apply list_elem_of_here.
    - split; [|split].
      + repeat constructor. exists r0, (NewHijack (page p)); tauto.
      + intros r [= <-]. apply list_elem_of_here.
      + discriminate.
    - split; [|split].
      + repeat constructor. exists {| router_page := page p |}, h0; tauto.
      + discriminate.
      + intros h [= <-]. apply list_elem_of_here.
    - split; [constructor | split; discriminate]. }
  split.
  { intros r Hr. simpl. rewrite liveLoops_app.
    unfold closeCalls, loopsAfter. rewrite Hr.
    destruct (hijackNative p); simpl;
      rewrite ?list_elem_of_filter; tauto. }
  split.
  { intros h Hh. simpl. rewrite liveLoops_app.
    unfold closeCalls, loopsAfter. rewrite Hh.
    destruct (hijackRouter p); simpl;
      rewrite ?list_elem_of_filter; tauto. }
  destruct (closeTimes_spec d n p w) as [-> ->].
  split; [reflexivity|]. split; [|reflexivity].
  simpl. now rewrite liveLoops_app.
Qed.

Lemma Close_idempotent_total_witness :
  RouterLoop {| router_page := tab7 |}
  ∉ liveLoops (snd (Close (failingDriver (λ _, true) "gone") routerPage
                      [GoRouterRun {| router_page := tab7 |}])).
Proof.
  apply (proj1 (proj2 (proj2 (proj2
           (Close_idempotent_total (failingDriver (λ _, true) "gone") quietDriver
              routerPage [GoRouterRun {| router_page := tab7 |}] 1))))
           {| router_page := tab7 |}).
  reflexivity.
Defined.

Example Close_twice :
  let p := routerPage in
  let w := [GoRouterRun {| router_page := tab7 |}] in
  liveLoops w = [RouterLoop {| router_page := tab7 |}]
  ∧ closeTimes (failingDriver (λ _, true) "gone") 2 p w
    = (p, [CallPageClose tab7; CallRouterStop {| router_page := tab7 |};
           CallPageClose tab7; CallRouterStop {| router_page := tab7 |};
           GoRouterRun {| router_page := tab7 |}])
  ∧ liveLoops (snd (closeTimes (failingDriver (λ _, true) "gone") 2 p w)) = [].
Proof. cbv zeta. repeat split. Qed.

(** ** The current URL *)

(** C8: when the page-info lookup fails, [URL] returns the empty string and
    no error; when it succeeds, [URL] returns the URL of the page info.  The
    page is left as it was and the lookup is the only call made. *)
Theorem URL_best_effort (d : Driver) (p : Page) (w : World) :
  (∀ err, answer_Info d w (page p) = inl err → fst (fst (URL d p w)) = "")
  ∧ (∀ info, answer_Info d w (page p) = inr info →
       fst (fst (URL d p w)) = info_URL info)
  ∧ snd (fst (URL d p w)) = p
  ∧ snd (URL d p w) = CallPageInfo (page p) :: w.
Proof.
  unfold URL, bind, ret, Info.
  destruct (answer_Info d w (page p)) as [e|info]; simpl.
  - repeat split; intros ? [=].
  - repeat split; [intros ? [=] | intros ? [= <-]; reflexivity].
Qed.

Lemma URL_best_effort_witness :
  fst (fst (URL (failingDriver isPageInfo "target closed") passivePage [])) = ""
  ∧ fst (fst (URL quietDriver passivePage [])) = "http://target.test/".
Proof.
  split.
  - apply (proj1 (URL_best_effort (failingDriver isPageInfo "target closed")
                    passivePage []) "target closed").
    reflexivity.
  - apply (proj1 (proj2 (URL_best_effort quietDriver passivePage []))
             {| info_URL := "http://target.test/"; info_Title := "t" |}).
    reflexivity.
Defined.


(** ** More on the ledgers *)

Lemma concatExchanges_app (h1 h2 : list HistoryData) :
  concatExchanges (h1 ++ h2) = concatExchanges h1 +:+ concatExchanges h2.
Proof.
  induction h1 as [|e h1 IH]; simpl; [reflexivity|].
  now rewrite IH, !append_assoc.
Qed.

Lemma DumpHistory_text (p : Page) :
  fst (DumpHistory p) = concatExchanges (History p).
Proof.
  unfold DumpHistory, Builder_String, Builder_zero; simpl.
  now rewrite dump_loop.
Qed.

Lemma exec_effect (d : Driver) (op : PageOp) (p : Page) (w : World) :
  fst (exec d op p w)
  = set_InteractshURLs (InteractshURLs p ++ urlsAdded [op])
      (set_History (History p ++ historyAdded [op]) p).
Proof.
  destruct p; destruct op; simpl; rewrite ?app_nil_r;
    try reflexivity.
  - rewrite Close_page. reflexivity.
  - unfold bind, ret.
    match goal with |- context [URL d ?q w] =>
      pose proof (URL_page d q w) as E; destruct (URL d q w) as [[s q'] w']
    end.
    simpl in *. now subst.
Qed.

Lemma execAll_effect (d : Driver) (ops : list PageOp) :
  ∀ (p : Page) (w : World),
    fst (execAll d ops p w)
    = set_InteractshURLs (InteractshURLs p ++ urlsAdded ops)
        (set_History (History p ++ historyAdded ops) p).
Proof.
  induction ops as [|op ops IH]; intros p w.
  - destruct p; simpl; now rewrite !app_nil_r.
  - cbn [execAll]. unfold bind.
    pose proof (exec_effect d op p w) as E.
    destruct (exec d op p w) as [q w']; simpl in E. rewrite IH, E.
    destruct p, op; simpl; rewrite ?app_nil_r, <- ?app_assoc; reflexivity.
Qed.

(** X1: whatever sequence of operations runs on a page, the page it leaves
    is the page it found with [History] extended by exactly the exchanges the
    [addToHistory] calls of the sequence gave, in order, and
    [InteractshURLs] extended by exactly the URLs of its [addInteractshURL]
    calls; no other field changes, whatever [Close], [URL] and
    [DumpHistory] calls are interleaved. *)
Theorem operations_extend_ledgers_exactly (d : Driver) (ops : list PageOp)
    (p : Page) (w : World) :
  let q := fst (execAll d ops p w) in
  History q = History p ++ historyAdded ops
  ∧ InteractshURLs q = InteractshURLs p ++ urlsAdded ops
  ∧ page q = page p ∧ rules q = rules p ∧ instance q = instance p
  ∧ hijackRouter q = hijackRouter p ∧ hijackNative q = hijackNative p
  ∧ mutex q = mutex p ∧ payloads q = payloads p.
Proof.
  cbv zeta. rewrite execAll_effect. simpl. repeat split.
Qed.

(** X2: a dump taken after further operations is the earlier dump followed
    by the text of the exchanges added in between: an earlier dump is always
    a prefix of a later one, and operations that add no exchange leave the
    dump as it was. *)
Theorem DumpHistory_grows_by_suffix (d : Driver) (ops : list PageOp)
    (p : Page) (w : World) :
  fst (DumpHistory (fst (execAll d ops p w)))
  = fst (DumpHistory p) +:+ concatExchanges (historyAdded ops).
Proof.
  rewrite !DumpHistory_text, execAll_effect. simpl.
  apply concatExchanges_app.
Qed.

(** X3: the dump does not keep the boundaries between exchanges: writing two
    adjacent entries of the history as one entry gives the same dump, so
    different histories can have the same dump. *)
Theorem DumpHistory_loses_boundaries (p : Page) (before after : list HistoryData)
    (e1 e2 : HistoryData) :
  fst (DumpHistory (set_History (before ++ e1 :: e2 :: after) p))
  = fst (DumpHistory (set_History (before ++ mergeExchanges e1 e2 :: after) p))
  ∧ (before ++ e1 :: e2 :: after ≠ before ++ mergeExchanges e1 e2 :: after).
Proof.
  split.
  - rewrite !DumpHistory_text. simpl.
    rewrite !concatExchanges_app. simpl.
    now rewrite !append_assoc.
  - intros E. apply (f_equal length) in E.
    rewrite !length_app in E. simpl in E. lia.
Qed.

(** X4: the appends compose: two calls in a row are one call with the
    arguments concatenated, a call without arguments changes nothing, and
    appends to the two ledgers commute. *)
Theorem ledger_appends_compose (p : Page) (hs1 hs2 : list HistoryData)
    (us1 us2 : list string) :
  addToHistory hs2 (addToHistory hs1 p) = addToHistory (hs1 ++ hs2) p
  ∧ addInteractshURL us2 (addInteractshURL us1 p) = addInteractshURL (us1 ++ us2) p
  ∧ addToHistory [] p = p
  ∧ addInteractshURL [] p = p
  ∧ addToHistory hs1 (addInteractshURL us1 p) = addInteractshURL us1 (addToHistory hs1 p).
Proof.
  destruct p; unfold addToHistory, addInteractshURL, set_History, set_InteractshURLs;
    simpl.
  rewrite !app_nil_r, <- !app_assoc. repeat split.
Qed.

(** ** More on the selection of the mode *)

Lemma containsAny_app (ts1 ts2 : list ActionType) :
  containsAnyModificationActionType (ts1 ++ ts2)
  = containsAnyModificationActionType ts1 || containsAnyModificationActionType ts2.
Proof.
  induction ts1 as [|t ts1 IH]; [reflexivity|].
  destruct t; simpl; try reflexivity; exact IH.
Qed.

Lemma containsModificationActions_types (actions : list Action) :
  containsModificationActions actions
  = containsAnyModificationActionType (map actionTypeOf actions).
Proof.
  induction actions as [|a actions IH]; [reflexivity|].
  cbn [containsModificationActions map]. unfold actionTypeOf at 1.
  destruct (holder_ActionType (action_ActionType a)); simpl; try reflexivity;
    exact IH.
Qed.

Lemma hasModificationRules_types (p : Page) :
  hasModificationRules p
  = containsAnyModificationActionType (map rule_Action (rules p)).
Proof.
  unfold hasModificationRules.
  induction (rules p) as [|r rs IH]; [reflexivity|].
  cbn [hasModificationRules_range map].
  destruct (rule_Action r); simpl; try reflexivity; exact IH.
Qed.

(** X5: the three loops of the selection agree: the scan of an action list
    and the scan of a page's rules are the scan of their action types, a scan
    of a concatenation is the disjunction of the scans, and so the condition
    of line 49 is one scan over the rules' types followed by the actions'
    types. *)
Theorem selection_is_one_scan (p : Page) (actions1 actions2 : list Action) :
  containsModificationActions (actions1 ++ actions2)
  = containsModificationActions actions1 || containsModificationActions actions2
  ∧ containsModificationActions actions1
    = containsAnyModificationActionType (map actionTypeOf actions1)
  ∧ hasModificationRules p
    = containsAnyModificationActionType (map rule_Action (rules p))
  ∧ hasModificationRules p || containsModificationActions actions1
    = containsAnyModificationActionType
        (map rule_Action (rules p) ++ map actionTypeOf actions1).
Proof.
  repeat split.
  - now rewrite !containsModificationActions_types, map_app, containsAny_app.
  - apply containsModificationActions_types.
  - apply hasModificationRules_types.
  - now rewrite containsAny_app, hasModificationRules_types,
      containsModificationActions_types.
Qed.

Lemma containsAny_Permutation (ts1 ts2 : list ActionType) :
  ts1 ≡ₚ ts2 →
  containsAnyModificationActionType ts1 = containsAnyModificationActionType ts2.
Proof.
  induction 1 as [|t ts1 ts2 _ IH|t1 t2 ts|ts1 ts2 ts3 _ IH1 _ IH2].
  - reflexivity.
  - destruct t; simpl; try reflexivity; exact IH.
  - destruct t1, t2; reflexivity.
  - congruence.
Qed.

(** X6: the selection does not depend on the order of the actions or of the
    rules: permuting either leaves the condition of line 49 unchanged. *)
Theorem selection_ignores_order (p : Page) (rs : list rule)
    (actions1 actions2 : list Action) :
  rules p ≡ₚ rs →
  actions1 ≡ₚ actions2 →
  hasModificationRules p || containsModificationActions actions1
  = hasModificationRules (set_rules rs p) || containsModificationActions actions2.
Proof.
  intros Hr Ha.
  rewrite !hasModificationRules_types, !containsModificationActions_types.
  simpl rules.
  f_equal; apply containsAny_Permutation, fmap_Permutation; assumption.
Qed.

Lemma selection_ignores_order_witness :
  hasModificationRules routerPage || containsModificationActions [navigate; setHeader]
  = hasModificationRules (set_rules [] routerPage)
    || containsModificationActions [setHeader; navigate].
Proof.
  apply (selection_ignores_order routerPage [] [navigate; setHeader]
           [setHeader; navigate]).
  - reflexivity.
  - apply perm_swap.
Defined.

(** ** More on [Run] *)

Lemma applyWrites_ledgers (writes : list LedgerWrite) :
  ∀ p : Page,
    History (fold_left applyWrite writes p) = History p ++ historyWritten writes
    ∧ InteractshURLs (fold_left applyWrite writes p)
      = InteractshURLs p ++ urlsWritten writes.
Proof.
  induction writes as [|wr writes IH]; intros p; simpl.
  - now rewrite !app_nil_r.
  - destruct (IH (applyWrite p wr)) as [-> ->].
    destruct wr; simpl; rewrite <- ?app_assoc; split; reflexivity.
Qed.

(** X7: [Run] hands back a page exactly when it returns no error, and with
    an error the result map is nil as well: a caller that checks the error
    never holds a nil page, and never gets a page beside an error. *)
Theorem Run_page_iff_no_error (d : Driver) (i : Instance) (baseURL : url_URL)
    (actions : list Action) (payloads : gmap string Value) (timeout : Duration)
    (w : World) :
  let r := fst (Run d i baseURL actions payloads timeout w) in
  (is_Some (resultPage r) ↔ resultErr r = None)
  ∧ (is_Some (resultErr r) → resultData r = None ∧ resultPage r = None).
Proof.
  cbv zeta. unfold_io. follow_answers; simpl.
  all: split; [split|]; intros H; try reflexivity; try (split; reflexivity);
    try discriminate H; try (eexists; reflexivity);
    try (destruct H as [? H]; discriminate H).
Qed.

(** X8: [Run] returns an error exactly when the last call it made answered
    that error, and no call before the last answered an error to [Run]: it
    never reports an error of its own making and never goes on after a call
    whose error it reads. *)
Theorem Run_error_is_last_answer (d : Driver) (i : Instance) (baseURL : url_URL)
    (actions : list Action) (payloads : gmap string Value) (timeout : Duration)
    (w : World) (err : error) :
  (resultErr (fst (Run d i baseURL actions payloads timeout w)) = Some err
   ↔ ∃ c calls,
       snd (Run d i baseURL actions payloads timeout w) = c :: calls ++ w
       ∧ answerOf d (calls ++ w) c = Some err)
  ∧ (∀ rest c calls e,
       snd (Run d i baseURL actions payloads timeout w) = rest ++ c :: calls ++ w →
       answerOf d (calls ++ w) c = Some e →
       rest = []
       ∧ resultErr (fst (Run d i baseURL actions payloads timeout w)) = Some e)
  ∧ (∀ rest c calls,
       snd (Run d i baseURL actions payloads timeout w) = rest ++ c :: calls ++ w →
       rest ≠ [] →
       answerOf d (calls ++ w) c = None).
Proof.
  assert (∀ rest c calls e,
            snd (Run d i baseURL actions payloads timeout w) = rest ++ c :: calls ++ w →
            answerOf d (calls ++ w) c = Some e →
            rest = []
            ∧ resultErr (fst (Run d i baseURL actions payloads timeout w)) = Some e)
    as G.
  { intros rest c calls e H A.
    destruct (Run_failure_is_last d i baseURL actions payloads timeout w
                rest calls c e H A) as [-> R].
    now rewrite R. }
  split; [split|split].
  - unfold_io. follow_answers; simpl in *; intros H; try discriminate H.
    all: injection H as <-.
    all: match goal with
         | |- ∃ c calls, ?x :: ?l = _ ∧ _ =>
             let r := prefix_before l w in exists x, r
         end.
    all: split; [reflexivity|]; simpl.
    all: repeat match goal with
           | E : answer_Page _ _ _ = _ |- _ => rewrite E
           | E : answer_ExecuteActions _ _ _ _ _ = _ |- _ => rewrite E
           end; simpl; try reflexivity; assumption.
  - intros (c & calls & H & A). exact (proj2 (G [] c calls err H A)).
  - exact G.
  - intros rest c calls H N.
    destruct (answerOf d (calls ++ w) c) as [e|] eqn:A; [|reflexivity].
    destruct (G rest c calls e H A) as [R _]. contradiction.
Qed.

Lemma Run_error_is_last_answer_witness :
  answerOf (failingDriver isPipeline "pipeline failed")
    (passiveSetup ++ [])
    (CallSetViewport (Timeout tab7 30%Z) 1 1920 1080) = None.
Proof.
  apply (proj2 (proj2 (Run_error_is_last_answer
                         (failingDriver isPipeline "pipeline failed") plainInstance
                         "http://target.test/" [navigate] ∅ 30%Z [] ""))
           [CallExecuteActions passivePage "http://target.test/" [navigate];
            CallSetExtraHeaders (Timeout tab7 30%Z)
              ["Accept-Language"; "en, en-GB, en-us;"]]
           (CallSetViewport (Timeout tab7 30%Z) 1 1920 1080) passiveSetup).
  - reflexivity.
  - discriminate.
Defined.

(** X9: the pipeline is only ever run with the base URL and the actions
    given to [Run], on a page whose ledgers are still empty, which holds the
    payloads and the instance given to [Run], after a hijack loop of that
    page was started and after the viewport and the Accept-Language header
    were set on its tab; nothing is called after the pipeline. *)
Theorem pipeline_runs_on_prepared_page (d : Driver) (i : Instance)
    (baseURL : url_URL) (actions : list Action) (payloadMap : gmap string Value)
    (timeout : Duration) (w : World) (rest calls : list Call) (p : Page)
    (u : url_URL) (a : list Action) :
  snd (Run d i baseURL actions payloadMap timeout w)
  = rest ++ CallExecuteActions p u a :: calls ++ w →
  rest = [] ∧ u = baseURL ∧ a = actions
  ∧ History p = [] ∧ InteractshURLs p = [] ∧ rules p = []
  ∧ payloads p = payloadMap ∧ instance p = i
  ∧ (∃ l, loopsOf p = [l] ∧ startedIn l calls)
  ∧ CallSetViewport (page p) 1 1920 1080 ∈ calls
  ∧ CallSetExtraHeaders (page p) ["Accept-Language"; "en, en-GB, en-us;"] ∈ calls.
Proof.
  unfold_io. follow_answers; simpl in *; intros H.
  all: cancel_world H; locate_eq H.
  all: simpl; repeat split.
  all: try (eexists; split; [reflexivity|]; simpl;
            repeat first [apply list_elem_of_here | apply list_elem_of_further]).
  all: repeat first [apply list_elem_of_here | apply list_elem_of_further].
Qed.

Lemma pipeline_runs_on_prepared_page_witness :
  [] = ([] : list Call)
  ∧ "http://target.test/" = "http://target.test/"
  ∧ [navigate] = [navigate]
  ∧ History passivePage = [] ∧ InteractshURLs passivePage = []
  ∧ rules passivePage = []
  ∧ payloads passivePage = ∅ ∧ instance passivePage = plainInstance
  ∧ (∃ l, loopsOf passivePage = [l]
          ∧ startedIn l
              (CallSetExtraHeaders (Timeout tab7 30%Z)
                 ["Accept-Language"; "en, en-GB, en-us;"]
               :: CallSetViewport (Timeout tab7 30%Z) 1 1920 1080 :: passiveSetup))
  ∧ CallSetViewport (page passivePage) 1 1920 1080
    ∈ CallSetExtraHeaders (Timeout tab7 30%Z)
        ["Accept-Language"; "en, en-GB, en-us;"]
      :: CallSetViewport (Timeout tab7 30%Z) 1 1920 1080 :: passiveSetup
  ∧ CallSetExtraHeaders (page passivePage) ["Accept-Language"; "en, en-GB, en-us;"]
    ∈ CallSetExtraHeaders (Timeout tab7 30%Z)
        ["Accept-Language"; "en, en-GB, en-us;"]
      :: CallSetViewport (Timeout tab7 30%Z) 1 1920 1080 :: passiveSetup.
Proof.
  apply (pipeline_runs_on_prepared_page quietDriver plainInstance
           "http://target.test/" [navigate] ∅ 30%Z [] []
           (CallSetExtraHeaders (Timeout tab7 30%Z)
              ["Accept-Language"; "en, en-GB, en-us;"]
            :: CallSetViewport (Timeout tab7 30%Z) 1 1920 1080 :: passiveSetup)
           passivePage "http://target.test/" [navigate]).
  reflexivity.
Defined.

Lemma Run_returned_page_ledgers (d : Driver) (i : Instance) (baseURL : url_URL)
    (actions : list Action) (payloadMap : gmap string Value) (timeout : Duration)
    (w : World) (p : Page) :
  resultPage (fst (Run d i baseURL actions payloadMap timeout w)) = Some p →
  ∃ pg p0 w0 writes,
    answer_Page d w (engine i) = inr pg
    ∧ page p = Timeout pg timeout
    ∧ instance p = i ∧ payloads p = payloadMap
    ∧ snd (Run d i baseURL actions payloadMap timeout w)
      = CallExecuteActions p0 baseURL actions :: w0
    ∧ answer_ExecuteActions d w0 p0 baseURL actions
      = (writes,
         (resultData (fst (Run d i baseURL actions payloadMap timeout w)), None))
    ∧ History p = historyWritten writes
    ∧ InteractshURLs p = urlsWritten writes.
Proof.
  unfold_io. follow_answers; simpl in *; intros H; try discriminate H.
  all: injection H as <-.
  all: match goal with
       | |- context [fold_left applyWrite ?l ?q] =>
           pose proof (applyWrites_frame l q) as F; cbv zeta in F;
           destruct F as (Fp & _ & Fi & _ & _ & _ & Fy);
           destruct (applyWrites_ledgers l q) as [Lh Lu];
           rewrite Fp, Fi, Fy, Lh, Lu
       end.
  all: simpl.
  all: eexists _, _, _, _; repeat split; try eassumption; reflexivity.
Qed.

(** X10: the page [Run] hands back is the tab the browser created, under the
    timeout given to [Run]; it holds the instance and the payloads given to
    [Run]; its ledgers hold exactly what the handlers wrote while the
    pipeline ran, in order, and its dump is the text of those exchanges; the
    result map is the one the pipeline answered. *)
Theorem Run_returned_page_contents (d : Driver) (i : Instance) (baseURL : url_URL)
    (actions : list Action) (payloadMap : gmap string Value) (timeout : Duration)
    (w : World) (p : Page) :
  resultPage (fst (Run d i baseURL actions payloadMap timeout w)) = Some p →
  ∃ pg p0 w0 writes,
    answer_Page d w (engine i) = inr pg
    ∧ page p = Timeout pg timeout
    ∧ instance p = i ∧ payloads p = payloadMap
    ∧ snd (Run d i baseURL actions payloadMap timeout w)
      = CallExecuteActions p0 baseURL actions :: w0
    ∧ answer_ExecuteActions d w0 p0 baseURL actions
      = (writes,
         (resultData (fst (Run d i baseURL actions payloadMap timeout w)), None))
    ∧ History p = historyWritten writes
    ∧ InteractshURLs p = urlsWritten writes
    ∧ fst (DumpHistory p) = concatExchanges (historyWritten writes).
Proof.
  intros H.
  destruct (Run_returned_page_ledgers d i baseURL actions payloadMap timeout w p H)
    as (pg & p0 & w0 & writes & H1 & H2 & H3 & H4 & H5 & H6 & H7 & H8).
  exists pg, p0, w0, writes.
  rewrite DumpHistory_text, H7. tauto.
Qed.

Lemma Run_returned_page_contents_witness :
  ∃ pg p0 w0 writes,
    answer_Page quietDriver [] (engine plainInstance) = inr pg
    ∧ page (addInteractshURL ["http://oob.test/x"] (addToHistory [exchange1] passivePage))
      = Timeout pg 30%Z
    ∧ instance (addInteractshURL ["http://oob.test/x"]
                  (addToHistory [exchange1] passivePage)) = plainInstance
    ∧ payloads (addInteractshURL ["http://oob.test/x"]
                  (addToHistory [exchange1] passivePage)) = ∅
    ∧ snd (Run quietDriver plainInstance "http://target.test/" [navigate] ∅ 30%Z [])
      = CallExecuteActions p0 "http://target.test/" [navigate] :: w0
    ∧ answer_ExecuteActions quietDriver w0 p0 "http://target.test/" [navigate]
      = (writes,
         (resultData (fst (Run quietDriver plainInstance "http://target.test/"
                             [navigate] ∅ 30%Z [])), None))
    ∧ History (addInteractshURL ["http://oob.test/x"]
                 (addToHistory [exchange1] passivePage)) = historyWritten writes
    ∧ InteractshURLs (addInteractshURL ["http://oob.test/x"]
                        (addToHistory [exchange1] passivePage)) = urlsWritten writes
    ∧ fst (DumpHistory (addInteractshURL ["http://oob.test/x"]
                          (addToHistory [exchange1] passivePage)))
      = concatExchanges (historyWritten writes).
Proof.
  apply (Run_returned_page_contents quietDriver plainInstance
           "http://target.test/" [navigate] ∅ 30%Z []).
  reflexivity.
Defined.

(** X11: the page [Run] hands back holds exactly one hijack handle, and the
    handle is on the page's own tab: either the router and no native hijack,
    or the native hijack, set to every URL at the response stage, and no
    router. *)
Theorem Run_returns_one_handle (d : Driver) (i : Instance) (baseURL : url_URL)
    (actions : list Action) (payloadMap : gmap string Value) (timeout : Duration)
    (w : World) (p : Page) :
  resultPage (fst (Run d i baseURL actions payloadMap timeout w)) = Some p →
  (hijackRouter p = Some {| router_page := page p |} ∧ hijackNative p = None)
  ∨ (hijackRouter p = None
     ∧ hijackNative p
       = Some {| hijack_page := page p;
                 hijack_pattern :=
                   Some {| URLPattern := "*";
                           RequestStage_ := FetchRequestStageResponse |} |}).
Proof.
  unfold_io. follow_answers; simpl in *; intros H; try discriminate H.
  all: injection H as <-.
  all: match goal with
       | |- context [fold_left applyWrite ?l ?q] =>
           pose proof (applyWrites_frame l q) as F; cbv zeta in F;
           destruct F as (Fp & _ & _ & Fr & Fn & _);
           rewrite Fp, Fr, Fn
       end.
  all: simpl; first [left; split; reflexivity | right; split; reflexivity].
Qed.

Lemma Run_returns_one_handle_witness :
  (hijackRouter (addToHistory [exchange1] passivePage)
   = Some {| router_page := page (addToHistory [exchange1] passivePage) |}
   ∧ hijackNative (addToHistory [exchange1] passivePage) = None)
  ∨ (hijackRouter (addToHistory [exchange1] passivePage) = None
     ∧ hijackNative (addToHistory [exchange1] passivePage)
       = Some {| hijack_page := page (addToHistory [exchange1] passivePage);
                 hijack_pattern :=
                   Some {| URLPattern := "*";
                           RequestStage_ := FetchRequestStageResponse |} |}).
Proof.
  apply (Run_returns_one_handle (failingDriver (λ _, false) "") plainInstance
           "http://target.test/" [navigate] ∅ 30%Z []).
  reflexivity.
Defined.

(** ** [Run], [Close] and the loops *)

(** X12: closing the page [Run] handed back stops what [Run] started: the
    page holds one handle, the go statement of its loop is in the log of
    [Run], and [Close] calls [Stop] on that handle and then releases the
    page's tab, whatever the driver answers; after that the page's loop is
    not running. *)
Theorem Close_after_Run_stops_its_loop (d d' : Driver) (i : Instance)
    (baseURL : url_URL) (actions : list Action) (payloadMap : gmap string Value)
    (timeout : Duration) (w : World) (p : Page) :
  resultPage (fst (Run d i baseURL actions payloadMap timeout w)) = Some p →
  ∃ l calls,
    loopsOf p = [l]
    ∧ snd (Run d i baseURL actions payloadMap timeout w) = calls ++ w
    ∧ startedIn l calls
    ∧ snd (Close d' p (snd (Run d i baseURL actions payloadMap timeout w)))
      = CallPageClose (page p) :: stopCallOf l
        :: snd (Run d i baseURL actions payloadMap timeout w)
    ∧ l ∉ liveLoops
            (snd (Close d' p (snd (Run d i baseURL actions payloadMap timeout w)))).
Proof.
  intros H. rewrite Close_calls. cbn [snd]. rewrite liveLoops_app.
  unfold closeCalls, loopsOf, loopsAfter.
  revert H. unfold_io. follow_answers; simpl in *; intros H; try discriminate H.
  all: injection H as <-.
  all: match goal with
       | |- context [fold_left applyWrite ?l ?q] =>
           pose proof (applyWrites_frame l q) as F; cbv zeta in F;
           destruct F as (Fp & _ & _ & Fr & Fn & _);
           rewrite Fp, Fr, Fn
       end.
  all: simpl.
  all: eexists _, _; split; [reflexivity|].
  all: split;
    [ match goal with
      | |- ?L = _ ++ ?w0 =>
          let r := prefix_before L w0 in change L with (r ++ w0)
      end; reflexivity |].
  all: split;
    [simpl; repeat first [apply list_elem_of_here | apply list_elem_of_further]|].
  all: split; [reflexivity|].
  all: rewrite filter_cons_False by (intros N; apply N; reflexivity).
  all: rewrite list_elem_of_filter; intros [N _]; apply N; reflexivity.
Qed.

Lemma Close_after_Run_stops_its_loop_witness :
  ∃ l calls,
    loopsOf (addToHistory [exchange1] passivePage) = [l]
    ∧ snd (Run (failingDriver (λ _, false) "") plainInstance
             "http://target.test/" [navigate] ∅ 30%Z []) = calls ++ []
    ∧ startedIn l calls
    ∧ snd (Close (failingDriver (λ _, true) "gone")
             (addToHistory [exchange1] passivePage)
             (snd (Run (failingDriver (λ _, false) "") plainInstance
                     "http://target.test/" [navigate] ∅ 30%Z [])))
      = CallPageClose (page (addToHistory [exchange1] passivePage))
        :: stopCallOf l
        :: snd (Run (failingDriver (λ _, false) "") plainInstance
                  "http://target.test/" [navigate] ∅ 30%Z [])
    ∧ l ∉ liveLoops
            (snd (Close (failingDriver (λ _, true) "gone")
                    (addToHistory [exchange1] passivePage)
                    (snd (Run (failingDriver (λ _, false) "") plainInstance
                            "http://target.test/" [navigate] ∅ 30%Z [])))).
Proof.
  apply (Close_after_Run_stops_its_loop (failingDriver (λ _, false) "")
           (failingDriver (λ _, true) "gone") plainInstance
           "http://target.test/" [navigate] ∅ 30%Z []).
  reflexivity.
Defined.

(** X13: [Run] stops no loop and starts at most one: on every path, failing
    or not, it makes no [Stop] or [Close] call, so the loops a log counts
    after [Run] are those counted before it with at most one more on top. *)
Theorem Run_keeps_running_loops (d : Driver) (i : Instance) (baseURL : url_URL)
    (actions : list Action) (payloadMap : gmap string Value) (timeout : Duration)
    (w : World) :
  ∃ calls new,
    snd (Run d i baseURL actions payloadMap timeout w) = calls ++ w
    ∧ Forall (λ c, isStopOrClose c = false) calls
    ∧ liveLoops (snd (Run d i baseURL actions payloadMap timeout w))
      = new ++ liveLoops w
    ∧ (length new ≤ 1)%nat.
Proof.
  unfold_io. follow_answers; simpl.
  all: match goal with
       | |- ∃ calls new, ?l = calls ++ ?w ∧ _ =>
           let r := prefix_before l w in exists r
       end.
  all: first
         [ solve [ exists []; split; [reflexivity|]; split; [repeat constructor|];
                   split; [reflexivity | simpl; lia] ]
         | solve [ eexists [_]; split; [reflexivity|]; split; [repeat constructor|];
                   split; [reflexivity | simpl; lia] ] ].
Qed.

(** X14: [Close] touches the loops of its own page only: a loop that is not
    the loop of a handle of the page runs after [Close] exactly when it ran
    before, and [Close] starts no loop. *)
Theorem Close_spares_other_loops (d : Driver) (p : Page) (w : World) (l : Loop) :
  l ∉ loopsOf p →
  (l ∈ liveLoops (snd (Close d p w)) ↔ l ∈ liveLoops w)
  ∧ liveLoops (snd (Close d p w)) `sublist_of` liveLoops w.
Proof.
  intros N. rewrite Close_calls. cbn [snd]. rewrite liveLoops_app.
  unfold closeCalls, loopsAfter. unfold loopsOf in N.
  destruct (hijackRouter p) as [r|], (hijackNative p) as [h|]; simpl in *.
  - split.
    + rewrite !list_elem_of_filter.
      rewrite !elem_of_cons, elem_of_nil in N. intuition congruence.
    + etrans; apply sublist_filter.
  - split.
    + rewrite !list_elem_of_filter.
      rewrite !elem_of_cons, elem_of_nil in N. intuition congruence.
    + apply sublist_filter.
  - split.
    + rewrite !list_elem_of_filter.
      rewrite !elem_of_cons, elem_of_nil in N. intuition congruence.
    + apply sublist_filter.
  - split; reflexivity.
Qed.

Lemma Close_spares_other_loops_witness :
  (NativeLoop nativeHandle
   ∈ liveLoops (snd (Close quietDriver routerPage
                       [GoHijackHandler nativeHandle;
                        GoRouterRun {| router_page := tab7 |}]))
   ↔ NativeLoop nativeHandle
     ∈ liveLoops [GoHijackHandler nativeHandle; GoRouterRun {| router_page := tab7 |}])
  ∧ liveLoops (snd (Close quietDriver routerPage
                      [GoHijackHandler nativeHandle;
                       GoRouterRun {| router_page := tab7 |}]))
    `sublist_of`
    liveLoops [GoHijackHandler nativeHandle; GoRouterRun {| router_page := tab7 |}].
Proof.
  apply (Close_spares_other_loops quietDriver routerPage
           [GoHijackHandler nativeHandle; GoRouterRun {| router_page := tab7 |}]
           (NativeLoop nativeHandle)).
  unfold loopsOf; simpl. rewrite elem_of_cons, elem_of_nil.
  intros [E|[]]; discriminate E.
Defined.

(** X15: [Run] sets the user agent exactly when the browser has a custom
    agent and the tab was created; it then passes that agent. *)
Theorem user_agent_set_iff_configured (d : Driver) (i : Instance)
    (baseURL : url_URL) (actions : list Action) (payloadMap : gmap string Value)
    (timeout : Duration) (w : World) :
  ∃ calls,
    snd (Run d i baseURL actions payloadMap timeout w) = calls ++ w
    ∧ ((∃ pg ua, CallSetUserAgent pg ua ∈ calls)
       ↔ (customAgent (browser i) ≠ ""
          ∧ ∃ pg, answer_Page d w (engine i) = inr pg))
    ∧ (∀ pg ua, CallSetUserAgent pg ua ∈ calls → ua = customAgent (browser i)).
Proof.
  unfold_io. follow_answers; simpl.
  all: match goal with
       | |- ∃ calls, ?l = calls ++ ?w ∧ _ =>
           let r := prefix_before l w in exists r
       end.
  all: split; [reflexivity|]; split; [split|].
  all: lazymatch goal with
       | |- (∃ pg ua, _ ∈ _) → _ =>
           intros (pg & ua & M);
           repeat (apply elem_of_cons in M as [M|M]); try discriminate M;
           try (apply elem_of_nil in M; contradiction);
           (split; [assumption | eexists; reflexivity])
       | |- _ ∧ (∃ pg, _) → _ =>
           intros [C [pg E]]; try congruence; try contradiction;
           (eexists _, _;
            repeat first [apply list_elem_of_here | apply list_elem_of_further])
       | |- ∀ pg ua, _ → _ =>
           intros pg ua M;
           repeat (apply elem_of_cons in M as [M|M]); try discriminate M;
           try (apply elem_of_nil in M; contradiction);
           (injection M as _ ->; reflexivity)
       end.
Qed.

(** X16: after the creation of the tab, every call [Run] makes on a tab, a
    router, a native hijack or a page goes to the created tab under the
    timeout given to [Run]. *)
Theorem Run_calls_carry_the_timeout (d : Driver) (i : Instance)
    (baseURL : url_URL) (actions : list Action) (payloadMap : gmap string Value)
    (timeout : Duration) (w : World) :
  ∃ calls,
    snd (Run d i baseURL actions payloadMap timeout w) = calls ++ w
    ∧ ∀ c pg, c ∈ calls → tabOf c = Some pg →
        deadline pg = Some timeout
        ∧ ∃ created, answer_Page d w (engine i) = inr created
                     ∧ target pg = target created.
Proof.
  unfold_io. follow_answers; simpl.
  all: match goal with
       | |- ∃ calls, ?l = calls ++ ?w ∧ _ =>
           let r := prefix_before l w in exists r
       end.
  all: split; [reflexivity|]; intros c pg M T.
  all: repeat (apply elem_of_cons in M as [->|M]);
    try (apply elem_of_nil in M; contradiction);
    simpl in T; try discriminate T; injection T as <-.
  all: (split; [reflexivity | eexists; split; reflexivity]).
Qed.

(** ** Operations and the driver *)

Lemma closeCalls_ledgers (p : Page) (hs : list HistoryData) (us : list string) :
  closeCalls (set_InteractshURLs us (set_History hs p)) = closeCalls p.
Proof. reflexivity. Qed.

Lemma opsCalls_ledgers (ops : list PageOp) (p : Page) (hs : list HistoryData)
    (us : list string) :
  opsCalls (set_InteractshURLs us (set_History hs p)) ops = opsCalls p ops.
Proof.
  induction ops as [|op ops IH]; [reflexivity|].
  cbn [opsCalls]. rewrite IH. reflexivity.
Qed.

Lemma exec_calls (d : Driver) (op : PageOp) (p : Page) (w : World) :
  snd (exec d op p w) = opCalls p op ++ w.
Proof.
  destruct op; cbn [exec opCalls]; try reflexivity.
  - now rewrite Close_calls.
  - unfold URL, bind, ret, Info.
    destruct (answer_Info d w (page p)); reflexivity.
Qed.

(** X17: only [Close] and [URL] talk to the driver: the log of a sequence of
    operations on a page holds, in order, two or three calls per [Close] (the
    stops of the page's handles, then the release of its tab) and one
    page-info lookup per [URL]; [DumpHistory], [addToHistory],
    [addInteractshURL], [Page] and [Browser] call nothing, so a sequence
    without [Close] and [URL] leaves the log as it was. *)
Theorem operations_calls (d : Driver) (ops : list PageOp) (p : Page) (w : World) :
  snd (execAll d ops p w) = opsCalls p ops ++ w
  ∧ (Forall (λ op, op ≠ OpClose ∧ op ≠ OpURL) ops → snd (execAll d ops p w) = w).
Proof.
  assert (∀ ops p w, snd (execAll d ops p w) = opsCalls p ops ++ w) as G.
  { clear. intros ops. induction ops as [|op ops IH]; intros p w; [reflexivity|].
    cbn [execAll opsCalls]. unfold bind.
    pose proof (exec_calls d op p w) as C.
    pose proof (exec_effect d op p w) as E.
    destruct (exec d op p w) as [q w']; simpl in C, E. subst q w'.
    rewrite IH, opsCalls_ledgers. now rewrite app_assoc. }
  split; [apply G|].
  intros F. rewrite G.
  replace (opsCalls p ops) with ([] : list Call); [reflexivity|].
  clear G. induction F as [|op ops [H1 H2] _ IH]; [reflexivity|].
  simpl. rewrite <- IH. destruct op; try reflexivity; contradiction.
Qed.

Example operations_calls_example :
  snd (execAll quietDriver
         [OpAddToHistory [exchange1]; OpURL; OpDumpHistory; OpClose; OpClose]
         routerPage [])
  = [CallPageClose tab7; CallRouterStop {| router_page := tab7 |};
     CallPageClose tab7; CallRouterStop {| router_page := tab7 |};
     CallPageInfo tab7].
Proof. reflexivity. Qed.

(** X18: on the page [Run] handed back, and after any further operations on
    it, [Page] gives the tab the browser created, under the timeout given to
    [Run], [Browser] gives the engine of the instance that ran it, and [URL]
    looks up that same tab; the three leave the page as it is. *)
Theorem getters_of_returned_page (d d' : Driver) (i : Instance) (baseURL : url_URL)
    (actions : list Action) (payloadMap : gmap string Value) (timeout : Duration)
    (w w' : World) (p : Page) (ops : list PageOp) :
  resultPage (fst (Run d i baseURL actions payloadMap timeout w)) = Some p →
  let q := fst (execAll d' ops p w') in
  (∃ pg, answer_Page d w (engine i) = inr pg
         ∧ fst (Page_Page q) = Timeout pg timeout
         ∧ snd (URL d' q w') = CallPageInfo (Timeout pg timeout) :: w')
  ∧ fst (Page_Browser q) = engine i
  ∧ snd (Page_Page q) = q ∧ snd (Page_Browser q) = q
  ∧ snd (fst (URL d' q w')) = q.
Proof.
  intros H. cbv zeta.
  destruct (Run_returned_page_ledgers d i baseURL actions payloadMap timeout w p H)
    as (pg & _ & _ & _ & H1 & H2 & H3 & _).
  rewrite URL_page. unfold Page_Page, Page_Browser; cbn [fst snd].
  rewrite execAll_effect.
  change (page (set_InteractshURLs (InteractshURLs p ++ urlsAdded ops)
                  (set_History (History p ++ historyAdded ops) p)))
    with (page p).
  change (instance (set_InteractshURLs (InteractshURLs p ++ urlsAdded ops)
                      (set_History (History p ++ historyAdded ops) p)))
    with (instance p).
  rewrite H3. split; [|repeat split].
  exists pg. split; [exact H1|]. split; [exact H2|].
  unfold URL, bind, ret, Info.
  change (page (set_InteractshURLs (InteractshURLs p ++ urlsAdded ops)
                  (set_History (History p ++ historyAdded ops) p)))
    with (page p).
  rewrite H2. destruct (answer_Info d' w' (Timeout pg timeout)); reflexivity.
Qed.

Lemma getters_of_returned_page_witness :
  let q := fst (execAll quietDriver [OpAddToHistory [exchange1]; OpClose]
                  (addInteractshURL ["http://oob.test/x"]
                     (addToHistory [exchange1] passivePage)) []) in
  (∃ pg, answer_Page quietDriver [] (engine plainInstance) = inr pg
         ∧ fst (Page_Page q) = Timeout pg 30%Z
         ∧ snd (URL quietDriver q []) = CallPageInfo (Timeout pg 30%Z) :: [])
  ∧ fst (Page_Browser q) = engine plainInstance
  ∧ snd (Page_Page q) = q ∧ snd (Page_Browser q) = q
  ∧ snd (fst (URL quietDriver q [])) = q.
Proof.
  apply (getters_of_returned_page quietDriver quietDriver plainInstance
           "http://target.test/" [navigate] ∅ 30%Z [] []
           (addInteractshURL ["http://oob.test/x"]
              (addToHistory [exchange1] passivePage))
           [OpAddToHistory [exchange1]; OpClose]).
  reflexivity.
Defined.

Lemma operations_calls_witness :
  snd (execAll (failingDriver (λ _, true) "gone")
         [OpAddToHistory [exchange1]; OpDumpHistory; OpPage; OpBrowser;
          OpAddInteractshURL ["http://oob.test/x"]]
         routerPage [GoRouterRun {| router_page := tab7 |}])
  = [GoRouterRun {| router_page := tab7 |}].
Proof.
  apply (proj2 (operations_calls (failingDriver (λ _, true) "gone")
                  [OpAddToHistory [exchange1]; OpDumpHistory; OpPage; OpBrowser;
                   OpAddInteractshURL ["http://oob.test/x"]]
                  routerPage [GoRouterRun {| router_page := tab7 |}])).
  repeat constructor; discriminate.
Defined.

Lemma Run_page_iff_no_error_witness :
  resultData (fst (Run (failingDriver isPipeline "pipeline failed") plainInstance
                     "http://target.test/" [navigate] ∅ 30%Z [])) = None
  ∧ resultPage (fst (Run (failingDriver isPipeline "pipeline failed") plainInstance
                       "http://target.test/" [navigate] ∅ 30%Z [])) = None.
Proof.
  apply (proj2 (Run_page_iff_no_error (failingDriver isPipeline "pipeline failed")
                  plainInstance "http://target.test/" [navigate] ∅ 30%Z [])).
  eexists; reflexivity.
Defined.
